(** * 5g_planner: the geospatial analysis engine of [src/App.jsx]

    A shallow embedding of [generateGrid], [computeHdop], [mathTranspose],
    [mathMultiply] and [findTowerClusterCenter].

    JavaScript numbers are IEEE 754 binary64 values: they are modelled by
    Rocq's primitive [float], whose operations are specified by the
    [FloatAxioms] of the library against [SpecFloat]; [Math.sqrt] is the
    correctly rounded square root [sqrt].  A call that raises a [TypeError]
    is modelled by [Throw]; a [for] loop whose number of iterations depends
    on floating-point accumulation is given fuel.  The transcendental
    functions of the engine ([Math.sin], [Math.cos], [Math.atan2], [**]) are
    parameters of [findTowerClusterCenter]. *)

From Stdlib Require Import Floats List ZArith Lia Bool Arith Permutation.
Import ListNotations.

Set Warnings "-inexact-float".

Open Scope float_scope.

(** ** Completions: a value, or a thrown exception *)

Inductive Completion (A : Type) : Type :=
| Normal (a : A)
| Throw.

Arguments Normal {A} a.
Arguments Throw {A}.

Definition bind {A B} (c : Completion A) (k : A -> Completion B) : Completion B :=
  match c with
  | Normal a => k a
  | Throw => Throw
  end.

Notation "x <- c ;; k" := (bind c (fun x => k))
  (at level 61, c at next level, right associativity).

Fixpoint mapM {A B} (f : A -> Completion B) (l : list A) : Completion (list B) :=
  match l with
  | [] => Normal []
  | x :: l' => y <- f x ;; ys <- mapM f l' ;; Normal (y :: ys)
  end.

(** ** Data model *)

(** [{ id, lat, lng }]; the engine never looks at [id]. *)
Record Tower : Type := mkTower { id : Z; lat : float; lng : float }.

(** [{ lat, lng, hdop, res }], as pushed by [generateGrid]. *)
Record GridPoint : Type :=
  mkGridPoint { g_lat : float; g_lng : float; hdop : float; res : float }.

(** A matrix is an array of rows. *)
Definition matrix : Type := list (list float).

(** The sentinel of [computeHdop]. *)
Definition sentinel : float := 100.

(** ** [mathTranspose] and [mathMultiply]

    [row[i]] past the end of [row] is [undefined]; the only consumer of such
    an element is the arithmetic of [mathMultiply], which reads it as [NaN],
    so an absent element is modelled by [nan].  [m[0].map] with [m] empty and
    [b[i][j]] with [b[i]] absent raise a [TypeError]. *)

Definition elem (row : list float) (i : nat) : float := nth i row nan.

(** [m[0].map((_, i) => m.map(row => row[i]))] *)
Definition mathTranspose (m : matrix) : Completion matrix :=
  match m with
  | [] => Throw
  | r0 :: _ => Normal (map (fun i => map (fun row => elem row i) m) (seq 0 (length r0)))
  end.

(** [row.reduce((sum, v, i) => sum + v * b[i][j], 0)], from index [i] on. *)
Fixpoint reduceRow (b : matrix) (j : nat) (row : list float) (i : nat) (sum : float)
  : Completion float :=
  match row with
  | [] => Normal sum
  | v :: row' =>
      match nth_error b i with
      | None => Throw
      | Some bi => reduceRow b j row' (S i) (sum + v * elem bi j)
      end
  end.

(** [a.map(row => b[0].map((_, j) => row.reduce(..., 0)))] *)
Definition mathMultiply (a b : matrix) : Completion matrix :=
  mapM (fun row =>
          match b with
          | [] => Throw
          | b0 :: _ => mapM (fun j => reduceRow b j row 0 0) (seq 0 (length b0))
          end) a.

(** [G[i][j]]: a [TypeError] when [G[i]] is absent. *)
Definition entry (G : matrix) (i j : nat) : Completion float :=
  match nth_error G i with
  | None => Throw
  | Some r => Normal (elem r j)
  end.

(** ** [computeHdop] *)

(** The row of [A] built for one tower: the normalised line of sight. *)
Definition losNorm (qlat qlng : float) (t : Tower) : float :=
  let dx := lng t - qlng in
  let dy := lat t - qlat in
  sqrt (dx * dx + dy * dy).

Definition losRow (qlat qlng : float) (t : Tower) : list float :=
  let dx := lng t - qlng in
  let dy := lat t - qlat in
  let norm := losNorm qlat qlng t in
  [dx / norm; dy / norm].

Definition computeHdop (qlat qlng : float) (towers : list Tower) : Completion float :=
  if (length towers <? 3)%nat then Normal sentinel
  else
    let A := map (losRow qlat qlng) towers in
    At <- mathTranspose A ;;
    G <- mathMultiply At A ;;
    g00 <- entry G 0 0 ;;
    g11 <- entry G 1 1 ;;
    g01 <- entry G 0 1 ;;
    g10 <- entry G 1 0 ;;
    let det := g00 * g11 - g01 * g10 in
    if det =? 0 then Normal sentinel
    else
      let inv00 := g11 / det in
      let inv01 := - g01 / det in
      let inv10 := - g10 / det in
      let inv11 := g00 / det in
      Normal (sqrt (inv00 + inv11)).

(** ** [generateGrid] *)

(** [Math.min] and [Math.max] of two arguments, after ECMA-262: [NaN] if
    either argument is [NaN]; [-0] is smaller than [+0]. *)
Definition is_neg_zero (x : float) : bool := is_zero x && get_sign x.
Definition is_pos_zero (x : float) : bool := is_zero x && negb (get_sign x).

Definition min_step (lowest number : float) : float :=
  if is_neg_zero number && is_pos_zero lowest then number
  else if number <? lowest then number else lowest.

Definition max_step (highest number : float) : float :=
  if is_pos_zero number && is_neg_zero highest then number
  else if highest <? number then number else highest.

Definition Math_min (a b : float) : float :=
  if is_nan a || is_nan b then nan
  else min_step (min_step infinity a) b.

Definition Math_max (a b : float) : float :=
  if is_nan a || is_nan b then nan
  else max_step (max_step neg_infinity a) b.

(** The bounding box after the [forEach]: [(latMin, latMax, lngMin, lngMax)]. *)
Record BBox : Type :=
  mkBBox { latMin : float; latMax : float; lngMin : float; lngMax : float }.

Definition bboxInit : BBox := mkBBox 90 (-90) 180 (-180).

Definition bboxStep (b : BBox) (t : Tower) : BBox :=
  mkBBox (Math_min (latMin b) (lat t)) (Math_max (latMax b) (lat t))
         (Math_min (lngMin b) (lng t)) (Math_max (lngMax b) (lng t)).

Definition boundingBox (towers : list Tower) : BBox :=
  fold_left bboxStep towers bboxInit.

(** How a run of the loops stands when the fuel is spent or the loop ends. *)
Inductive Status : Type := Finished | Thrown | OutOfFuel.

(** [for (let lng = ...; lng <= lngMax; lng += res) { ... results.push(...) }];
    the state is the array [results]. *)
Fixpoint lngLoop (fuel : nat) (towers : list Tower) (r : float) (lngMax' : float)
  (lat' lng' : float) (results : list GridPoint) : list GridPoint * Status :=
  match fuel with
  | O => (results, OutOfFuel)
  | S fuel' =>
      if lng' <=? lngMax' then
        match computeHdop lat' lng' towers with
        | Throw => (results, Thrown)
        | Normal h =>
            lngLoop fuel' towers r lngMax' lat' (lng' + r)
                    (results ++ [mkGridPoint lat' lng' h r])
        end
      else (results, Finished)
  end.

(** [for (let lat = latMin; lat <= latMax; lat += res) { ... }] *)
Fixpoint latLoop (fuel : nat) (towers : list Tower) (r : float) (b : BBox)
  (lat' : float) (results : list GridPoint) : list GridPoint * Status :=
  match fuel with
  | O => (results, OutOfFuel)
  | S fuel' =>
      if lat' <=? latMax b then
        match lngLoop (S fuel') towers r (lngMax b) lat' (lngMin b) results with
        | (results', Finished) => latLoop fuel' towers r b (lat' + r) results'
        | stopped => stopped
        end
      else (results, Finished)
  end.

(** The pair is the array of points emitted so far and the state of the run:
    [generateGrid fuel towers r = (l, Finished)] says the call returned [l]. *)
Definition generateGrid (fuel : nat) (towers : list Tower) (r : float)
  : list GridPoint * Status :=
  if (length towers <? 3)%nat then ([], Finished)
  else
    let b := boundingBox towers in
    latLoop fuel towers r b (latMin b) [].

(** ** [findTowerClusterCenter] *)

(** [Math.PI], the binary64 value nearest to pi. *)
Definition Math_PI : float := 3.141592653589793.

Definition toRad (deg : float) : float := deg * Math_PI / 180.

Definition earthRadiusKm : float := 6371.

(** The default value of the parameter [distanceThreshold]. *)
Definition defaultThreshold : float := 0.3.

(** [xs.length] as a number. *)
Definition lengthNum {A} (l : list A) : float :=
  of_uint63 (Uint63.of_Z (Z.of_nat (length l))).

(** [Math.sin], [Math.cos], [Math.atan2] and the operator [**] belong to the
    engine that runs the program, and ECMA-262 leaves their accuracy to it:
    the embedding takes them as parameters. *)
Record MathHost : Type := mkMathHost {
  Math_sin : float -> float;
  Math_cos : float -> float;
  Math_atan2 : float -> float -> float;
  Number_exponentiate : float -> float -> float
}.

Section Cluster.
Variable M : MathHost.

Definition haversine (lat1 lon1 lat2 lon2 : float) : float :=
  let dLat := toRad (lat2 - lat1) in
  let dLon := toRad (lat2 - lon1) in
  let a := Number_exponentiate M (Math_sin M (dLat / 2)) 2
           + Math_cos M (toRad lat1) * Math_cos M (toRad lat2)
             * Number_exponentiate M (Math_sin M (dLon / 2)) 2 in
  earthRadiusKm * 2 * Math_atan2 M (sqrt a) (sqrt (1 - a)).

(** The test of [group.some]: is member [t] within the threshold of [base]? *)
Definition near (thr : float) (base t : Tower) : bool :=
  haversine (lat t) (lng t) (lat base) (lng base) <? thr.

(** The scan [for (const group of groups)]: the first group with a member
    near [base] receives [base]; [None] when the scan ends with
    [found = false]. *)
Fixpoint joinFirst (thr : float) (base : Tower) (groups : list (list Tower))
  : option (list (list Tower)) :=
  match groups with
  | [] => None
  | group :: rest =>
      if existsb (near thr base) group then Some ((group ++ [base]) :: rest)
      else option_map (cons group) (joinFirst thr base rest)
  end.

(** One iteration of the loop over [towers]. *)
Definition place (thr : float) (groups : list (list Tower)) (base : Tower)
  : list (list Tower) :=
  match joinFirst thr base groups with
  | Some groups' => groups'
  | None => groups ++ [[base]]
  end.

Definition groupTowers (thr : float) (towers : list Tower) : list (list Tower) :=
  fold_left (place thr) towers [].

(** [(a, b) => (a.length > b.length ? a : b)] *)
Definition pickLarger (a b : list Tower) : list Tower :=
  if (length b <? length a)%nat then a else b.

(** [groups.reduce(pickLarger, [])] *)
Definition largestGroup (groups : list (list Tower)) : list Tower :=
  fold_left pickLarger groups [].

(** [xs.reduce((sum, t) => sum + f(t), 0) / xs.length] *)
Definition average (f : Tower -> float) (xs : list Tower) : float :=
  fold_left (fun sum t => sum + f t) xs 0 / lengthNum xs.

(** [None] is [null]; the pair is the array [[avgLat, avgLng]]. *)
Definition findTowerClusterCenter (towers : list Tower) (thr : float)
  : option (float * float) :=
  if (length towers =? 0)%nat then None
  else
    let largest := largestGroup (groupTowers thr towers) in
    Some (average lat largest, average lng largest).

(** The formula the specification describes, with the longitude delta
    [lon2 - lon1]; it is not part of the program and only serves to be
    compared with [haversine]. *)
Definition haversineStandard (lat1 lon1 lat2 lon2 : float) : float :=
  let dLat := toRad (lat2 - lat1) in
  let dLon := toRad (lon2 - lon1) in
  let a := Number_exponentiate M (Math_sin M (dLat / 2)) 2
           + Math_cos M (toRad lat1) * Math_cos M (toRad lat2)
             * Number_exponentiate M (Math_sin M (dLon / 2)) 2 in
  earthRadiusKm * 2 * Math_atan2 M (sqrt a) (sqrt (1 - a)).
End Cluster.

(** ** A reference host

    One implementation of the host functions in binary64 arithmetic, used to
    run the engine on examples: Taylor expansions in Horner form, adequate
    for the arguments a pair of geographic coordinates produces (angles
    within [-pi, pi]).  The theorems below hold for every host. *)
Module RefMath.

(** [1 - x2/(k(k+1)) (1 - x2/((k+2)(k+3)) (...))], [n] factors deep. *)
Fixpoint horner (n : nat) (k x2 : float) : float :=
  match n with
  | O => 1
  | S n' => 1 - x2 / (k * (k + 1)) * horner n' (k + 2) x2
  end.

Definition sin (x : float) : float := x * horner 16 2 (x * x).

Definition cos (x : float) : float := horner 16 1 (x * x).

(** [1/k - x2 (1/(k+2) - x2 (...))], the series of the arc tangent. *)
Fixpoint atanSeries (n : nat) (k x2 : float) : float :=
  match n with
  | O => 1 / k
  | S n' => 1 / k - x2 * atanSeries n' (k + 2) x2
  end.

(** The arc tangent on [[0, 1]]: three halvings of the angle, then the series. *)
Definition halve (r : float) : float := r / (1 + sqrt (1 + r * r)).

Definition atan01 (r : float) : float :=
  let s := halve (halve (halve r)) in
  8 * (s * atanSeries 12 1 (s * s)).

Definition atan2 (y x : float) : float :=
  if is_nan y || is_nan x then nan
  else if is_zero y then
    (if get_sign x then (if get_sign y then - Math_PI else Math_PI) else y)
  else
    let ay := abs y in
    let ax := abs x in
    let first :=
      if is_infinity ay && is_infinity ax then Math_PI / 4
      else if ay <=? ax then atan01 (ay / ax)
      else Math_PI / 2 - atan01 (ax / ay) in
    let upper := if get_sign x then Math_PI - first else first in
    if get_sign y then - upper else upper.

(** [base ** e] for the exponents that are small natural numbers, by
    repeated multiplication; the engine only raises to the power [2]. *)
Fixpoint powNat (fuel : nat) (base e : float) : float :=
  match fuel with
  | O => nan
  | S fuel' => if e =? 0 then 1 else base * powNat fuel' base (e - 1)
  end.

Definition exponentiate (base e : float) : float :=
  if is_nan e then nan else powNat 64 base e.

Definition host : MathHost := mkMathHost sin cos atan2 exponentiate.

End RefMath.

(** ** Notions used by the statements *)

(** The entry [(c, j)] of [Aᵗ·A] written as a sum over the rows of [A]. *)
Definition dotCol (c j : nat) (A : matrix) : float :=
  fold_left (fun sum row => sum + elem row c * elem row j) A 0.

(** The value [computeHdop] returns from the four entries of [G]. *)
Definition hdopOfNormal (g00 g01 g10 g11 : float) : float :=
  let det := g00 * g11 - g01 * g10 in
  if det =? 0 then sentinel else sqrt (g11 / det + g00 / det).

(** A coordinate of a tower equals a coordinate of the query point: the same
    value, or equal as numbers ([===], under which [-0] equals [+0]). *)
Definition sameCoord (x y : float) : Prop := x = y \/ (x =? y) = true.

(** The coordinates of a tower are numbers that can be compared: not [NaN]. *)
Definition hasCoordinates (t : Tower) : Prop :=
  is_nan (lat t) = false /\ is_nan (lng t) = false.

(** The order of the loop guards. *)
Definition fle (x y : float) : Prop := (x <=? y) = true.

(** The coordinates and the resolution of the points of a grid. *)
Definition coordsOf (l : list GridPoint) : list (float * float * float) :=
  map (fun p => (g_lat p, g_lng p, res p)) l.

(** Two lists of such triples agree, number by number, under [===]. *)
Fixpoint coordsMatch (l e : list (float * float * float)) : bool :=
  match l, e with
  | [], [] => true
  | (la, ln, r) :: l', (la', ln', r') :: e' =>
      (la =? la') && (ln =? ln') && (r =? r') && coordsMatch l' e'
  | _, _ => false
  end.

(** The nine points of the 3x3 grid of step 0.001 from the origin. *)
Definition grid3x3 : list (float * float * float) :=
  [(0, 0, 0.001); (0, 0.001, 0.001); (0, 0.002, 0.001);
   (0.001, 0, 0.001); (0.001, 0.001, 0.001); (0.001, 0.002, 0.001);
   (0.002, 0, 0.001); (0.002, 0.001, 0.001); (0.002, 0.002, 0.001)].

(** A point pushed by [generateGrid]: inside the guards of both loops, with
    the resolution of the call and the [hdop] that [computeHdop] returns. *)
Definition emittedBy (towers : list Tower) (r : float) (b : BBox) (p : GridPoint)
  : Prop :=
  fle (g_lat p) (latMax b) /\ fle (g_lng p) (lngMax b) /\ res p = r
  /\ computeHdop (g_lat p) (g_lng p) towers = Normal (hdop p).

(** What the specification asks of an [hdop]. *)
Definition finiteNonNegative (x : float) : bool := is_finite x && (0 <=? x).

(** ** Tower sets used as examples *)

Definition towersTriangle : list Tower :=
  [mkTower 1 0 0; mkTower 2 0 1; mkTower 3 1 0].

Definition towersCollinear : list Tower :=
  [mkTower 1 0 0; mkTower 2 0 1; mkTower 3 0 2].

Definition towersSanFrancisco : list Tower :=
  [mkTower 1 37.7749 (-122.4194);
   mkTower 2 37.7759 (-122.4194);
   mkTower 3 37.7749 (-122.4184)].

Definition towersCorner : list Tower :=
  [mkTower 1 0 0; mkTower 2 0 0.002; mkTower 3 0.002 0].

Definition towersUnit : list Tower :=
  [mkTower 1 1 1; mkTower 2 1 2; mkTower 3 2 1].

(** Two towers about 10 km apart along a meridian, and two towers on the
    equator at the same longitude up to 0.0009 degrees. *)
Definition towerSouth : Tower := mkTower 1 0 0.
Definition towerNorth : Tower := mkTower 2 0.09 0.
Definition towerEast : Tower := mkTower 3 0 0.0009.

(** The smallest positive binary64 number. *)
Definition tiny : float := 0x1p-1074.

(** ** The handlers of [TowerEditor]

    Each handler passes a new array to [setTowers]; the functions below are
    those arrays.  [now] is the value of [Date.now()]. *)

(** [click(e)]: [[...towers, { id: Date.now(), lat: e.latlng.lat, lng: e.latlng.lng }]] *)
Definition onClick (towers : list Tower) (now : Z) (la lo : float) : list Tower :=
  towers ++ [mkTower now la lo].

(** [dragend(e)] on the marker of the tower with identifier [tid]:
    [towers.map(t => t.id === tower.id ? { ...t, lat: newPos.lat, lng: newPos.lng } : t)] *)
Definition onDragEnd (towers : list Tower) (tid : Z) (la lo : float) : list Tower :=
  map (fun t => if (id t =? tid)%Z then mkTower (id t) la lo else t) towers.

(** [contextmenu()] on that marker: [towers.filter(t => t.id !== tower.id)] *)
Definition onContextMenu (towers : list Tower) (tid : Z) : list Tower :=
  filter (fun t => negb (id t =? tid)%Z) towers.

(** ** The data of [HDOPOverlay] *)

(** [data.map(p => [p.lat, p.lng, 1 / p.hdop])] *)
Definition heatData (data : list GridPoint) : list (float * float * float) :=
  map (fun p => (g_lat p, g_lng p, 1 / hdop p)) data.

(** The opacity in [rgba(0, 0, 255, ${Math.min(1, 1 / p.hdop)})]. *)
Definition pixelAlpha (p : GridPoint) : float := Math_min 1 (1 / hdop p).

(** The corners given to [L.rectangle]. *)
Definition pixelBounds (p : GridPoint) : (float * float) * (float * float) :=
  ((g_lat p - res p / 2, g_lng p - res p / 2),
   (g_lat p + res p / 2, g_lng p + res p / 2)).

(** ** [handleFileUpload]

    What the callback [reader.onload] does with the value of [JSON.parse],
    for files whose tower entries are well-typed.  [ParsedObject] carries
    the properties [towers] and [precision] of an object when present;
    [ParsedPrimitive] is a number, a string or a boolean. *)
Inductive Parsed : Type :=
| ParsedArray (ts : list Tower)
| ParsedObject (ts : option (list Tower)) (prec : option float)
| ParsedNull
| ParsedPrimitive
| ParseError.

Inductive Tab : Type := Planner | Analysis.

(** The state of [App] that the callback reads and writes. *)
Record AppState : Type := mkAppState {
  st_tab : Tab;
  st_towers : list Tower;
  st_precision : float;
  st_mapCenter : float * float;
  st_gridData : list GridPoint
}.

(** The two messages of [alert]. *)
Inductive AlertMessage : Type := InvalidFileFormat | InvalidJSON.

(** How the callback ends: all setters called; an [alert], with the state as
    the setters called before it left it; or a call that does not return. *)
Inductive UploadResult : Type :=
| Accepted (st : AppState)
| Alerted (msg : AlertMessage) (st : AppState)
| Hangs.

(** [ToBoolean] of a number: [false] for [+0], [-0] and [NaN]. *)
Definition truthyNumber (x : float) : bool := negb (is_zero x || is_nan x).

(** The setters of a branch, in order: [setTowers(ts)], [setPrecision(prec)]
    (in the object branch; the array branch passes the current precision),
    [setMapCenter(cluster)] when [cluster] is not [null], and
    [setGridData(generateGrid(ts, prec))]; an exception raised on the way is
    caught and reported as "Invalid JSON". *)
Definition loadTowers (M : MathHost) (fuel : nat) (st : AppState)
  (ts : list Tower) (prec : float) : UploadResult :=
  let center :=
    match findTowerClusterCenter M ts defaultThreshold with
    | Some c => c
    | None => st_mapCenter st
    end in
  match generateGrid fuel ts prec with
  | (grid, Finished) =>
      Accepted (mkAppState (st_tab st) ts prec center grid)
  | (_, Thrown) =>
      Alerted InvalidJSON (mkAppState (st_tab st) ts prec center (st_gridData st))
  | (_, OutOfFuel) => Hangs
  end.

Definition handleFileUpload (M : MathHost) (fuel : nat) (st : AppState)
  (parsed : Parsed) : UploadResult :=
  match parsed with
  | ParseError => Alerted InvalidJSON st
  | ParsedArray ts => loadTowers M fuel st ts (st_precision st)
  | ParsedObject (Some ts) (Some prec) =>
      if truthyNumber prec then loadTowers M fuel st ts prec
      else Alerted InvalidFileFormat st
  | ParsedObject _ _ => Alerted InvalidFileFormat st
  | ParsedNull => Alerted InvalidJSON st
  | ParsedPrimitive => Alerted InvalidFileFormat st
  end.

(** ** Further notions used by the statements *)

(** A matrix of [n] rows of [m] components. *)
Definition rectangular (n m : nat) (A : matrix) : Prop :=
  length A = n /\ Forall (fun row => length row = m) A.

(** The sum that [row.reduce] computes against column [j] of [b]; rows of
    [b] beyond the length of [row] take no part. *)
Definition dotRow (b : matrix) (j : nat) (row : list float) : float :=
  fold_left (fun sum vb => sum + fst vb * elem (snd vb) j) (combine row b) 0.

(** The values one loop variable takes: from [x], by steps of [r], while
    [x <= stop]; the flag tells whether the guard failed within the fuel. *)
Fixpoint axisRun (fuel : nat) (x stop r : float) : list float * bool :=
  match fuel with
  | O => ([], false)
  | S fuel' =>
      if x <=? stop then
        let (l, done) := axisRun fuel' (x + r) stop r in (x :: l, done)
      else ([], true)
  end.

(** A group grown by the loop: a founding tower, then towers that each
    passed the distance test against a member already in the group. *)
Inductive chained (M : MathHost) (thr : float) : list Tower -> Prop :=
| chained_founder t : chained M thr [t]
| chained_join g t :
    chained M thr g -> existsb (near M thr t) g = true -> chained M thr (g ++ [t]).

(** * Properties *)

(** ** Binary64 facts *)

Lemma Prim2SF_nan_inv x : Prim2SF x = S754_nan -> x = nan.
Proof. intros H. apply Prim2SF_inj. rewrite H. reflexivity. Qed.

Lemma add_nan_l x : nan + x = nan.
Proof. apply Prim2SF_inj. rewrite add_spec. reflexivity. Qed.

Lemma add_nan_r x : x + nan = nan.
Proof.
  apply Prim2SF_inj. rewrite add_spec.
  change (Prim2SF nan) with S754_nan. destruct (Prim2SF x); reflexivity.
Qed.

Lemma mul_nan_l x : nan * x = nan.
Proof. apply Prim2SF_inj. rewrite mul_spec. reflexivity. Qed.

Lemma mul_nan_r x : x * nan = nan.
Proof.
  apply Prim2SF_inj. rewrite mul_spec.
  change (Prim2SF nan) with S754_nan. destruct (Prim2SF x); reflexivity.
Qed.

Lemma sf_compare_refl p : p <> S754_nan -> SFcompare p p = Some Eq.
Proof.
  destruct p as [s|s| |s m e]; simpl; intros H; try congruence.
  - destruct s; reflexivity.
  - rewrite Z.compare_refl, Pos.compare_cont_refl. destruct s; reflexivity.
Qed.

Lemma is_nan_false_iff x : is_nan x = false <-> Prim2SF x <> S754_nan.
Proof.
  unfold is_nan. rewrite FloatAxioms.eqb_spec. unfold SFeqb. split.
  - intros H E. rewrite E in H. discriminate.
  - intros H. rewrite (sf_compare_refl _ H). reflexivity.
Qed.

Lemma is_nan_true_iff x : is_nan x = true <-> x = nan.
Proof.
  split.
  - intros H. apply Prim2SF_nan_inv.
    destruct (Prim2SF x) eqn:E; try reflexivity;
      assert (N : is_nan x = false) by (apply is_nan_false_iff; congruence);
      congruence.
  - intros ->. reflexivity.
Qed.

Ltac cmp_cases :=
  repeat match goal with
         | H : context [Z.compare ?a ?b] |- _ => destruct (Z.compare_spec a b)
         | |- context [Z.compare ?a ?b] => destruct (Z.compare_spec a b)
         | H : context [Pos.compare_cont Eq ?a ?b] |- _ =>
             change (Pos.compare_cont Eq a b) with (Pos.compare a b) in *;
             destruct (Pos.compare_spec a b)
         | |- context [Pos.compare_cont Eq ?a ?b] =>
             change (Pos.compare_cont Eq a b) with (Pos.compare a b) in *;
             destruct (Pos.compare_spec a b)
         end.

(** The difference of two equal coordinates is a zero, or [NaN] when they are
    infinite or [NaN] themselves. *)
Lemma sf_sub_diag p : SF64sub p p = S754_zero false \/ SF64sub p p = S754_nan.
Proof.
  destruct p as [s|s| |s m e]; simpl.
  - left. destruct s; reflexivity.
  - right. destruct s; reflexivity.
  - right. reflexivity.
  - left. unfold SF64sub, SFsub. rewrite Z.sub_diag. reflexivity.
Qed.

Lemma sf_sub_eqb p q :
  SFeqb p q = true ->
  (exists s, SF64sub p q = S754_zero s) \/ SF64sub p q = S754_nan.
Proof.
  unfold SFeqb. intros H.
  destruct p as [s1|s1| |s1 m1 e1], q as [s2|s2| |s2 m2 e2]; simpl in H;
    try discriminate;
    try solve [destruct s1; discriminate]; try solve [destruct s2; discriminate].
  - left. destruct s1, s2; eexists; reflexivity.
  - destruct s1, s2; try discriminate; right; reflexivity.
  - 
    assert (E : s1 = s2 /\ e1 = e2 /\ m1 = m2).
    { destruct s1, s2; try discriminate; cmp_cases; simpl in H;
        try discriminate; subst; auto. }
    destruct E as (-> & -> & ->).
    destruct (sf_sub_diag (S754_finite s2 m2 e2)) as [E | E]; rewrite E.
    + left. eexists; reflexivity.
    + right. reflexivity.
Qed.

Lemma sub_sameCoord x y :
  sameCoord x y -> x - y = 0 \/ x - y = -0 \/ x - y = nan.
Proof.
  intros [-> | H].
  - destruct (sf_sub_diag (Prim2SF y)) as [E | E].
    + left. apply Prim2SF_inj. rewrite sub_spec, E. reflexivity.
    + right; right. apply Prim2SF_inj. rewrite sub_spec, E. reflexivity.
  - rewrite FloatAxioms.eqb_spec in H.
    destruct (sf_sub_eqb _ _ H) as [[s E] | E].
    + destruct s.
      * right; left. apply Prim2SF_inj. rewrite sub_spec, E. reflexivity.
      * left. apply Prim2SF_inj. rewrite sub_spec, E. reflexivity.
    + right; right. apply Prim2SF_inj. rewrite sub_spec, E. reflexivity.
Qed.

(** The row of [A] of a tower that sits on the query point is [[NaN, NaN]]:
    the norm is [0] and both components are [0 / 0]. *)
Lemma losRow_coincident qlat qlng t :
  sameCoord (lat t) qlat -> sameCoord (lng t) qlng ->
  losRow qlat qlng t = [nan; nan].
Proof.
  intros Hlat Hlng. unfold losRow, losNorm.
  destruct (sub_sameCoord _ _ Hlat) as [-> | [-> | ->]],
           (sub_sameCoord _ _ Hlng) as [-> | [-> | ->]]; reflexivity.
Qed.

(** ** [mathTranspose], [mathMultiply] and the normal matrix *)

Lemma reduceRow_column (pre post : matrix) (c j : nat) (sum : float) :
  reduceRow (pre ++ post) j (map (fun row => elem row c) post) (length pre) sum
  = Normal (fold_left (fun s row => s + elem row c * elem row j) post sum).
Proof.
  revert pre sum. induction post as [|r post IH]; intros pre sum; simpl.
  - reflexivity.
  - rewrite nth_error_app2 by lia. rewrite Nat.sub_diag. simpl.
    specialize (IH (pre ++ [r]) (sum + elem r c * elem r j)).
    rewrite <- app_assoc, length_app in IH. simpl in IH.
    rewrite Nat.add_1_r in IH. exact IH.
Qed.

Lemma reduceRow_dotCol (A : matrix) (c j : nat) :
  reduceRow A j (map (fun row => elem row c) A) 0 0 = Normal (dotCol c j A).
Proof. exact (reduceRow_column [] A c j 0). Qed.

(** With rows of two components, [mathMultiply(mathTranspose(A), A)] is the
    2x2 matrix of the sums [dotCol]. *)
Lemma normal_matrix (A : matrix) :
  (exists r0 rest, A = r0 :: rest /\ length r0 = 2%nat) ->
  (At <- mathTranspose A ;; mathMultiply At A)
  = Normal [[dotCol 0 0 A; dotCol 0 1 A]; [dotCol 1 0 A; dotCol 1 1 A]].
Proof.
  intros (r0 & rest & -> & Hlen).
  unfold mathTranspose. rewrite Hlen.
  cbn [seq map bind]. unfold mathMultiply. cbn [mapM].
  rewrite Hlen. cbn [seq mapM].
  change (elem r0 0 :: map (fun row => elem row 0) rest)
    with (map (fun row => elem row 0) (r0 :: rest)).
  change (elem r0 1 :: map (fun row => elem row 1) rest)
    with (map (fun row => elem row 1) (r0 :: rest)).
  rewrite !reduceRow_dotCol. reflexivity.
Qed.

Lemma losRows_shape qlat qlng (towers : list Tower) :
  (1 <= length towers)%nat ->
  exists r0 rest, map (losRow qlat qlng) towers = r0 :: rest /\ length r0 = 2%nat.
Proof.
  destruct towers as [|t ts]; simpl; [lia|]. intros _.
  exists (losRow qlat qlng t), (map (losRow qlat qlng) ts). split; reflexivity.
Qed.

Lemma computeHdop_normal qlat qlng towers :
  (3 <= length towers)%nat ->
  computeHdop qlat qlng towers =
  let A := map (losRow qlat qlng) towers in
  Normal (hdopOfNormal (dotCol 0 0 A) (dotCol 0 1 A) (dotCol 1 0 A) (dotCol 1 1 A)).
Proof.
  intros Hlen. unfold computeHdop.
  destruct (Nat.ltb_spec (length towers) 3) as [H | _]; [lia|].
  cbv zeta.
  assert (Hshape := losRows_shape qlat qlng towers ltac:(lia)).
  pose proof (normal_matrix _ Hshape) as HG.
  destruct (mathTranspose (map (losRow qlat qlng) towers)) as [At|]; [|discriminate].
  cbn [bind] in HG |- *. rewrite HG. cbn [bind entry nth_error elem nth].
  unfold hdopOfNormal.
  destruct (_ =? 0); reflexivity.
Qed.

(** [computeHdop] never throws. *)
Lemma computeHdop_total qlat qlng towers :
  exists h, computeHdop qlat qlng towers = Normal h.
Proof.
  destruct (Nat.ltb_spec (length towers) 3) as [H | H].
  - exists sentinel. unfold computeHdop.
    destruct (Nat.ltb_spec (length towers) 3); [reflexivity | lia].
  - eexists. apply computeHdop_normal. exact H.
Qed.

(** A sum that meets a [NaN] term is [NaN]. *)
Lemma fold_nan_absorbs (f : list float -> float) (A : matrix) :
  fold_left (fun sum row => sum + f row) A nan = nan.
Proof.
  induction A as [|r A IH]; simpl; [reflexivity|]. rewrite add_nan_l. exact IH.
Qed.

Lemma dotCol_nan_row (c j : nat) (A : matrix) (r : list float) :
  In r A -> elem r c = nan -> dotCol c j A = nan.
Proof.
  unfold dotCol. generalize 0. induction A as [|r' A IH]; intros acc HIn Hr.
  - destruct HIn.
  - simpl. destruct HIn as [-> | HIn].
    + rewrite Hr, mul_nan_l, add_nan_r.
      apply (fold_nan_absorbs (fun row => elem row c * elem row j)).
    + apply IH; assumption.
Qed.

Lemma losNorm_coincident qlat qlng t :
  sameCoord (lat t) qlat -> sameCoord (lng t) qlng ->
  losNorm qlat qlng t = 0 \/ losNorm qlat qlng t = nan.
Proof.
  intros Hlat Hlng. unfold losNorm.
  destruct (sub_sameCoord _ _ Hlat) as [-> | [-> | ->]],
           (sub_sameCoord _ _ Hlng) as [-> | [-> | ->]];
    first [left; reflexivity | right; reflexivity].
Qed.

(** ** [computeHdop] *)

(** C8: with at least three towers, [G = Aᵗ·A] is the 2x2 matrix of the
    column sums of [A]; when its determinant [G00*G11 - G01*G10] equals zero
    under [===] (no tolerance) [computeHdop] returns the sentinel 100, and
    otherwise it returns [sqrt(inv00 + inv11)] where [inv00 = G11/det] and
    [inv11 = G00/det] are the diagonal of the closed-form inverse. *)
Theorem computeHdop_determinant_guard qlat qlng towers :
  (3 <= length towers)%nat ->
  let A := map (losRow qlat qlng) towers in
  let g00 := dotCol 0 0 A in
  let g01 := dotCol 0 1 A in
  let g10 := dotCol 1 0 A in
  let g11 := dotCol 1 1 A in
  let det := g00 * g11 - g01 * g10 in
  (At <- mathTranspose A ;; mathMultiply At A) = Normal [[g00; g01]; [g10; g11]]
  /\ ((det =? 0) = true -> computeHdop qlat qlng towers = Normal 100)
  /\ ((det =? 0) = false ->
      computeHdop qlat qlng towers = Normal (sqrt (g11 / det + g00 / det))).
Proof.
  intros Hlen A g00 g01 g10 g11 det.
  split; [|split].
  - apply normal_matrix, losRows_shape. lia.
  - intros Hdet. rewrite (computeHdop_normal _ _ _ Hlen). cbv zeta.
    unfold hdopOfNormal. fold A g00 g01 g10 g11 det. rewrite Hdet. reflexivity.
  - intros Hdet. rewrite (computeHdop_normal _ _ _ Hlen). cbv zeta.
    unfold hdopOfNormal. fold A g00 g01 g10 g11 det. rewrite Hdet. reflexivity.
Qed.

Lemma computeHdop_determinant_guard_witness :
  (3 <= length towersTriangle)%nat
  /\ computeHdop 0.5 0.2 towersTriangle = Normal 1.2935325769267625
  /\ (3 <= length towersCollinear)%nat
  /\ computeHdop 0 5 towersCollinear = Normal 100.
Proof.
  assert (H3 : (3 <= 3)%nat) by lia.
  split; [exact H3|]. split; [|split; [exact H3|]].
  - apply (proj2 (proj2 (computeHdop_determinant_guard 0.5 0.2 towersTriangle H3))).
    vm_compute. reflexivity.
  - apply (proj1 (proj2 (computeHdop_determinant_guard 0 5 towersCollinear H3))).
    vm_compute. reflexivity.
Defined.

(** C9: with at least three towers, one of which sits exactly on the query
    point, the norm of that tower's line of sight is zero (or [NaN] for a
    coordinate that is not finite), its row of [A] is [[0/0, 0/0]], and
    [computeHdop] returns [NaN], which is neither finite nor the sentinel. *)
Theorem computeHdop_coincident_tower qlat qlng towers t :
  (3 <= length towers)%nat ->
  In t towers ->
  sameCoord (lat t) qlat ->
  sameCoord (lng t) qlng ->
  (losNorm qlat qlng t = 0 \/ losNorm qlat qlng t = nan)
  /\ losRow qlat qlng t = [nan; nan]
  /\ computeHdop qlat qlng towers = Normal nan
  /\ is_finite nan = false
  /\ (nan =? sentinel) = false.
Proof.
  intros Hlen HIn Hlat Hlng.
  pose proof (losRow_coincident _ _ _ Hlat Hlng) as Hrow.
  repeat split; try reflexivity; try assumption.
  - apply losNorm_coincident; assumption.
  - rewrite (computeHdop_normal _ _ _ Hlen). cbv zeta.
    assert (HInA : In [nan; nan] (map (losRow qlat qlng) towers)).
    { rewrite <- Hrow. apply in_map. exact HIn. }
    rewrite (dotCol_nan_row 0 0 _ _ HInA eq_refl).
    rewrite (dotCol_nan_row 0 1 _ _ HInA eq_refl).
    rewrite (dotCol_nan_row 1 0 _ _ HInA eq_refl).
    rewrite (dotCol_nan_row 1 1 _ _ HInA eq_refl).
    reflexivity.
Qed.

Lemma computeHdop_coincident_tower_witness :
  computeHdop 0 1 towersTriangle = Normal nan.
Proof.
  apply (computeHdop_coincident_tower 0 1 towersTriangle (mkTower 2 0 1)).
  - vm_compute. lia.
  - right. left. reflexivity.
  - left. reflexivity.
  - left. reflexivity.
Defined.

(** ** The order of binary64 numbers *)

Lemma sf_leb_trans p q r :
  SFleb p q = true -> SFleb q r = true -> SFleb p r = true.
Proof.
  unfold SFleb.
  destruct p as [s1|s1| |s1 m1 e1], q as [s2|s2| |s2 m2 e2], r as [s3|s3| |s3 m3 e3];
    simpl; try discriminate; try reflexivity;
    try (destruct s1; try discriminate; try reflexivity);
    try (destruct s2; try discriminate; try reflexivity);
    try (destruct s3; try discriminate; try reflexivity).
  all: intros H1 H2; cmp_cases; simpl in *; try discriminate; try reflexivity; try lia.
Qed.

Lemma sf_nlt_leb p q :
  p <> S754_nan -> q <> S754_nan -> SFltb p q = false -> SFleb q p = true.
Proof.
  unfold SFltb, SFleb.
  destruct p as [s1|s1| |s1 m1 e1], q as [s2|s2| |s2 m2 e2];
    simpl; try congruence; try reflexivity;
    try (destruct s1; try discriminate; try reflexivity);
    try (destruct s2; try discriminate; try reflexivity).
  all: intros _ _ H; cmp_cases; simpl in *; try discriminate; try reflexivity; try lia.
Qed.

Lemma sf_ltb_leb p q : SFltb p q = true -> SFleb p q = true.
Proof.
  unfold SFltb, SFleb. destruct (SFcompare p q) as [[| |]|]; congruence.
Qed.

Lemma fle_trans x y z : fle x y -> fle y z -> fle x z.
Proof. unfold fle. rewrite !leb_spec. apply sf_leb_trans. Qed.

Lemma fle_refl x : is_nan x = false -> fle x x.
Proof.
  intros H. apply is_nan_false_iff in H. unfold fle.
  rewrite leb_spec. unfold SFleb. rewrite (sf_compare_refl _ H). reflexivity.
Qed.

Lemma flt_fle x y : (x <? y) = true -> fle x y.
Proof. unfold fle. rewrite ltb_spec, leb_spec. apply sf_ltb_leb. Qed.

Lemma nlt_fle x y :
  is_nan x = false -> is_nan y = false -> (x <? y) = false -> fle y x.
Proof.
  intros Hx Hy. apply is_nan_false_iff in Hx, Hy.
  unfold fle. rewrite ltb_spec, leb_spec. apply sf_nlt_leb; assumption.
Qed.

Lemma fle_not_nan x y : fle x y -> is_nan x = false /\ is_nan y = false.
Proof.
  unfold fle. rewrite leb_spec. intros H.
  split; apply is_nan_false_iff; intros E; rewrite E in H;
    [|destruct (Prim2SF x)]; discriminate.
Qed.

Lemma is_zero_spec x : is_zero x = true -> exists s, Prim2SF x = S754_zero s.
Proof.
  unfold is_zero. rewrite FloatAxioms.eqb_spec.
  change (Prim2SF zero) with (S754_zero false). unfold SFeqb.
  destruct (Prim2SF x) as [s|s| |s m e]; simpl; try discriminate.
  - intros _. eexists; reflexivity.
  - destruct s; discriminate.
  - destruct s; discriminate.
Qed.

Lemma zeros_fle x y : is_zero x = true -> is_zero y = true -> fle x y.
Proof.
  intros Hx Hy. destruct (is_zero_spec _ Hx) as [s Ex], (is_zero_spec _ Hy) as [s' Ey].
  unfold fle. rewrite leb_spec, Ex, Ey. reflexivity.
Qed.

(** ** [Math.min] and [Math.max] *)

Section MinMax.
Variables lo n : float.
Hypothesis Hlo : is_nan lo = false.
Hypothesis Hn : is_nan n = false.

Lemma min_step_not_nan : is_nan (min_step lo n) = false.
Proof. unfold min_step. destruct (_ && _); [|destruct (_ <? _)]; assumption. Qed.

Lemma min_step_le_lowest : fle (min_step lo n) lo.
Proof.
  unfold min_step.
  destruct (is_neg_zero n && is_pos_zero lo) eqn:Z.
  - unfold is_neg_zero, is_pos_zero in Z.
    apply andb_prop in Z. destruct Z as [Z1 Z2].
    apply andb_prop in Z1, Z2. apply zeros_fle; tauto.
  - destruct (n <? lo) eqn:L.
    + apply flt_fle. exact L.
    + apply fle_refl. exact Hlo.
Qed.

Lemma min_step_le_number : fle (min_step lo n) n.
Proof.
  unfold min_step.
  destruct (is_neg_zero n && is_pos_zero lo) eqn:Z.
  - apply fle_refl. exact Hn.
  - destruct (n <? lo) eqn:L.
    + apply fle_refl. exact Hn.
    + apply nlt_fle; assumption.
Qed.

Lemma max_step_not_nan : is_nan (max_step lo n) = false.
Proof. unfold max_step. destruct (_ && _); [|destruct (_ <? _)]; assumption. Qed.

Lemma max_step_ge_highest : fle lo (max_step lo n).
Proof.
  unfold max_step.
  destruct (is_pos_zero n && is_neg_zero lo) eqn:Z.
  - unfold is_neg_zero, is_pos_zero in Z.
    apply andb_prop in Z. destruct Z as [Z1 Z2].
    apply andb_prop in Z1, Z2. apply zeros_fle; tauto.
  - destruct (lo <? n) eqn:L.
    + apply flt_fle. exact L.
    + apply fle_refl. exact Hlo.
Qed.

Lemma max_step_ge_number : fle n (max_step lo n).
Proof.
  unfold max_step.
  destruct (is_pos_zero n && is_neg_zero lo) eqn:Z.
  - apply fle_refl. exact Hn.
  - destruct (lo <? n) eqn:L.
    + apply fle_refl. exact Hn.
    + apply nlt_fle; assumption.
Qed.
End MinMax.

Lemma Math_min_spec a b :
  is_nan a = false -> is_nan b = false ->
  is_nan (Math_min a b) = false /\ fle (Math_min a b) a /\ fle (Math_min a b) b.
Proof.
  intros Ha Hb. unfold Math_min. rewrite Ha, Hb. cbn [orb].
  assert (Hi : is_nan infinity = false) by reflexivity.
  pose proof (min_step_not_nan infinity a Hi Ha) as H1.
  split; [|split].
  - apply min_step_not_nan; assumption.
  - eapply fle_trans.
    + apply min_step_le_lowest; assumption.
    + apply min_step_le_number; assumption.
  - apply min_step_le_number; assumption.
Qed.

Lemma Math_max_spec a b :
  is_nan a = false -> is_nan b = false ->
  is_nan (Math_max a b) = false /\ fle a (Math_max a b) /\ fle b (Math_max a b).
Proof.
  intros Ha Hb. unfold Math_max. rewrite Ha, Hb. cbn [orb].
  assert (Hi : is_nan neg_infinity = false) by reflexivity.
  pose proof (max_step_not_nan neg_infinity a Hi Ha) as H1.
  split; [|split].
  - apply max_step_not_nan; assumption.
  - eapply fle_trans.
    + apply (max_step_ge_number neg_infinity a); assumption.
    + apply max_step_ge_highest; assumption.
  - apply max_step_ge_number; assumption.
Qed.

(** ** The bounding box *)

Section FoldBounds.
Variable f : Tower -> float.

Lemma foldMin_spec towers : forall init,
  is_nan init = false ->
  Forall (fun t => is_nan (f t) = false) towers ->
  let m := fold_left (fun acc t => Math_min acc (f t)) towers init in
  is_nan m = false /\ fle m init /\ forall t, In t towers -> fle m (f t).
Proof.
  induction towers as [|t ts IH]; intros init Hinit Hall; cbn [fold_left].
  - split; [assumption|]. split; [apply fle_refl; assumption|]. intros t [].
  - inversion Hall as [|? ? Ht Hts]; subst.
    destruct (Math_min_spec init (f t) Hinit Ht) as (Hn & Hl & Hr).
    destruct (IH _ Hn Hts) as (Hn' & Hl' & Hin').
    split; [assumption|]. split; [eapply fle_trans; eassumption|].
    intros t' [<- | HIn].
    + eapply fle_trans; eassumption.
    + apply Hin'. exact HIn.
Qed.

Lemma foldMax_spec towers : forall init,
  is_nan init = false ->
  Forall (fun t => is_nan (f t) = false) towers ->
  let m := fold_left (fun acc t => Math_max acc (f t)) towers init in
  is_nan m = false /\ fle init m /\ forall t, In t towers -> fle (f t) m.
Proof.
  induction towers as [|t ts IH]; intros init Hinit Hall; cbn [fold_left].
  - split; [assumption|]. split; [apply fle_refl; assumption|]. intros t [].
  - inversion Hall as [|? ? Ht Hts]; subst.
    destruct (Math_max_spec init (f t) Hinit Ht) as (Hn & Hl & Hr).
    destruct (IH _ Hn Hts) as (Hn' & Hl' & Hin').
    split; [assumption|]. split; [eapply fle_trans; eassumption|].
    intros t' [<- | HIn].
    + eapply fle_trans; eassumption.
    + apply Hin'. exact HIn.
Qed.
End FoldBounds.

(** The four variables of the [forEach] evolve independently. *)
Lemma boundingBox_fields towers : forall b,
  let b' := fold_left bboxStep towers b in
  latMin b' = fold_left (fun acc t => Math_min acc (lat t)) towers (latMin b)
  /\ latMax b' = fold_left (fun acc t => Math_max acc (lat t)) towers (latMax b)
  /\ lngMin b' = fold_left (fun acc t => Math_min acc (lng t)) towers (lngMin b)
  /\ lngMax b' = fold_left (fun acc t => Math_max acc (lng t)) towers (lngMax b).
Proof.
  induction towers as [|t ts IH]; intros b; cbn [fold_left].
  - repeat split.
  - apply (IH (bboxStep b t)).
Qed.

Lemma hasCoordinates_lat towers :
  Forall hasCoordinates towers -> Forall (fun t => is_nan (lat t) = false) towers.
Proof. apply Forall_impl. intros t [H _]. exact H. Qed.

Lemma hasCoordinates_lng towers :
  Forall hasCoordinates towers -> Forall (fun t => is_nan (lng t) = false) towers.
Proof. apply Forall_impl. intros t [_ H]. exact H. Qed.

Lemma boundingBox_lat_bounds towers t :
  Forall hasCoordinates towers ->
  In t towers ->
  fle (latMin (boundingBox towers)) (lat t)
  /\ fle (lat t) (latMax (boundingBox towers)).
Proof.
  intros Hall HIn.
  destruct (boundingBox_fields towers bboxInit) as (E1 & E2 & _).
  fold (boundingBox towers) in E1, E2. rewrite E1, E2.
  pose proof (hasCoordinates_lat _ Hall) as Hlat.
  split.
  - apply (foldMin_spec lat towers (latMin bboxInit) eq_refl Hlat). exact HIn.
  - apply (foldMax_spec lat towers (latMax bboxInit) eq_refl Hlat). exact HIn.
Qed.

Lemma boundingBox_lng_bounds towers t :
  Forall hasCoordinates towers ->
  In t towers ->
  fle (lngMin (boundingBox towers)) (lng t)
  /\ fle (lng t) (lngMax (boundingBox towers)).
Proof.
  intros Hall HIn.
  destruct (boundingBox_fields towers bboxInit) as (_ & _ & E3 & E4).
  fold (boundingBox towers) in E3, E4. rewrite E3, E4.
  pose proof (hasCoordinates_lng _ Hall) as Hlng.
  split.
  - apply (foldMin_spec lng towers (lngMin bboxInit) eq_refl Hlng). exact HIn.
  - apply (foldMax_spec lng towers (lngMax bboxInit) eq_refl Hlng). exact HIn.
Qed.

(** C6: the bounding box that [generateGrid] computes (the minimum and the
    maximum of [lat] and of [lng] over the towers, started from 90, -90, 180
    and -180) contains every tower: [latMin <= lat <= latMax] and
    [lngMin <= lng <= lngMax], for towers whose coordinates are numbers. *)
Theorem boundingBox_contains_towers towers t :
  towers <> [] ->
  Forall hasCoordinates towers ->
  In t towers ->
  let b := boundingBox towers in
  fle (latMin b) (lat t) /\ fle (lat t) (latMax b)
  /\ fle (lngMin b) (lng t) /\ fle (lng t) (lngMax b).
Proof.
  intros _ Hall HIn b. subst b.
  destruct (boundingBox_lat_bounds towers t Hall HIn) as [H1 H2].
  destruct (boundingBox_lng_bounds towers t Hall HIn) as [H3 H4].
  repeat split; assumption.
Qed.

Lemma boundingBox_contains_towers_witness :
  boundingBox towersSanFrancisco = mkBBox 37.7749 37.7759 (-122.4194) (-122.4184)
  /\ fle 37.7749 37.7759 /\ fle 37.7759 37.7759
  /\ fle (-122.4194) (-122.4194) /\ fle (-122.4194) (-122.4184).
Proof.
  split; [reflexivity|].
  apply (boundingBox_contains_towers towersSanFrancisco (mkTower 2 37.7759 (-122.4194))).
  - discriminate.
  - repeat constructor.
  - right. left. reflexivity.
Defined.

(** Order of the box itself: with a tower whose coordinates are numbers, the
    minimum of each axis is below its maximum. *)
Lemma boundingBox_ordered towers :
  Forall hasCoordinates towers -> towers <> [] ->
  let b := boundingBox towers in
  fle (latMin b) (latMax b) /\ fle (lngMin b) (lngMax b).
Proof.
  intros Hall Hne b. destruct towers as [|t ts]; [congruence|].
  destruct (boundingBox_lat_bounds (t :: ts) t Hall (or_introl eq_refl)) as [H1 H2].
  destruct (boundingBox_lng_bounds (t :: ts) t Hall (or_introl eq_refl)) as [H3 H4].
  split; eapply fle_trans; eassumption.
Qed.

(** ** The loops of [generateGrid] *)

Section Loops.
Variable towers : list Tower.
Variable r : float.

Lemma lngLoop_spec (lngMax' lat' : float) : forall fuel lng' results,
  exists new,
    fst (lngLoop fuel towers r lngMax' lat' lng' results) = results ++ new
    /\ Forall (fun p => g_lat p = lat' /\ fle (g_lng p) lngMax' /\ res p = r
                        /\ computeHdop (g_lat p) (g_lng p) towers = Normal (hdop p))
              new
    /\ snd (lngLoop fuel towers r lngMax' lat' lng' results) <> Thrown
    /\ (fuel <> 0%nat -> fle lng' lngMax' ->
        exists h rest, new = mkGridPoint lat' lng' h r :: rest).
Proof.
  induction fuel as [|fuel IH]; intros lng' results; cbn [lngLoop].
  - exists []. rewrite app_nil_r. repeat split; try constructor; try discriminate.
    congruence.
  - destruct (lng' <=? lngMax') eqn:G.
    + destruct (computeHdop_total lat' lng' towers) as [h Hh]. rewrite Hh.
      destruct (IH (lng' + r) (results ++ [mkGridPoint lat' lng' h r]))
        as (new & E & HP & HT & _).
      exists (mkGridPoint lat' lng' h r :: new).
      split; [rewrite E, <- app_assoc; reflexivity|].
      split; [constructor; [repeat split; assumption | exact HP]|].
      split; [exact HT|]. intros _ _. eauto.
    + exists []. rewrite app_nil_r. repeat split; try constructor; try discriminate.
      unfold fle. congruence.
Qed.

Lemma latLoop_spec (b : BBox) : forall fuel lat' results,
  exists new,
    fst (latLoop fuel towers r b lat' results) = results ++ new
    /\ Forall (emittedBy towers r b) new
    /\ snd (latLoop fuel towers r b lat' results) <> Thrown
    /\ (fuel <> 0%nat -> fle lat' (latMax b) -> fle (lngMin b) (lngMax b) ->
        exists h rest, new = mkGridPoint lat' (lngMin b) h r :: rest).
Proof.
  induction fuel as [|fuel IH]; intros lat' results; cbn [latLoop].
  - exists []. rewrite app_nil_r. repeat split; try constructor; try discriminate.
    congruence.
  - destruct (lat' <=? latMax b) eqn:G.
    + destruct (lngLoop_spec (lngMax b) lat' (S fuel) (lngMin b) results)
        as (new1 & E1 & HP1 & HT1 & Hfirst).
      assert (HQ1 : Forall (emittedBy towers r b) new1).
      { eapply Forall_impl; [|exact HP1]. intros p (Ea & Hb & Hc & Hd).
        repeat split; try assumption. rewrite Ea. exact G. }
      destruct (lngLoop (S fuel) towers r (lngMax b) lat' (lngMin b) results)
        as [results' st] eqn:EL.
      cbn [fst snd] in E1, HT1. subst results'.
      destruct st.
      * destruct (IH (lat' + r) (results ++ new1)) as (new2 & E2 & HP2 & HT2 & _).
        exists (new1 ++ new2).
        split; [rewrite E2, app_assoc; reflexivity|].
        split; [apply Forall_app; split; assumption|].
        split; [exact HT2|].
        intros _ _ Hlng. destruct (Hfirst ltac:(discriminate) Hlng) as (h & rest & ->).
        exists h, (rest ++ new2). reflexivity.
      * congruence.
      * exists new1. cbn [fst snd].
        split; [reflexivity|]. split; [exact HQ1|]. split; [discriminate|].
        intros _ _ Hlng. exact (Hfirst ltac:(discriminate) Hlng).
    + exists []. rewrite app_nil_r. repeat split; try constructor; try discriminate.
      unfold fle. congruence.
Qed.

(** A run that ended keeps its result when given more fuel. *)
Lemma lngLoop_more_fuel (lngMax' lat' : float) (k : nat) :
  forall fuel lng' results,
    snd (lngLoop fuel towers r lngMax' lat' lng' results) <> OutOfFuel ->
    lngLoop (fuel + k) towers r lngMax' lat' lng' results
    = lngLoop fuel towers r lngMax' lat' lng' results.
Proof.
  induction fuel as [|fuel IH]; intros lng' results; cbn [lngLoop Nat.add].
  - cbn [snd]. congruence.
  - destruct (lng' <=? lngMax'); [|reflexivity].
    destruct (computeHdop lat' lng' towers); [apply IH | reflexivity].
Qed.

Lemma latLoop_more_fuel (b : BBox) (k : nat) :
  forall fuel lat' results,
    snd (latLoop fuel towers r b lat' results) <> OutOfFuel ->
    latLoop (fuel + k) towers r b lat' results
    = latLoop fuel towers r b lat' results.
Proof.
  induction fuel as [|fuel IH]; intros lat' results; cbn [latLoop Nat.add].
  - cbn [snd]. congruence.
  - destruct (lat' <=? latMax b); [|reflexivity].
    intros H.
    change (S (fuel + k)) with (S fuel + k)%nat.
    destruct (lngLoop (S fuel) towers r (lngMax b) lat' (lngMin b) results)
      as [results' st] eqn:EL.
    assert (Hst : st <> OutOfFuel) by (destruct st; cbn [snd] in H; congruence).
    rewrite lngLoop_more_fuel by (rewrite EL; exact Hst). rewrite EL.
    destruct st; try reflexivity. apply IH. exact H.
Qed.
End Loops.

(** The coordinates a run emits, and how it ends, depend on the towers only
    through the bounding box. *)
Lemma lngLoop_coords towers towers' r lngMax' lat' : forall fuel lng' results results',
  coordsOf results = coordsOf results' ->
  coordsOf (fst (lngLoop fuel towers r lngMax' lat' lng' results))
  = coordsOf (fst (lngLoop fuel towers' r lngMax' lat' lng' results'))
  /\ snd (lngLoop fuel towers r lngMax' lat' lng' results)
     = snd (lngLoop fuel towers' r lngMax' lat' lng' results').
Proof.
  induction fuel as [|fuel IH]; intros lng' results results' E; cbn [lngLoop].
  - split; [exact E | reflexivity].
  - destruct (lng' <=? lngMax'); [|split; [exact E | reflexivity]].
    destruct (computeHdop_total lat' lng' towers) as [h ->].
    destruct (computeHdop_total lat' lng' towers') as [h' ->].
    apply IH. unfold coordsOf in *. rewrite !map_app, E. reflexivity.
Qed.

Lemma latLoop_coords towers towers' r b : forall fuel lat' results results',
  coordsOf results = coordsOf results' ->
  coordsOf (fst (latLoop fuel towers r b lat' results))
  = coordsOf (fst (latLoop fuel towers' r b lat' results'))
  /\ snd (latLoop fuel towers r b lat' results)
     = snd (latLoop fuel towers' r b lat' results').
Proof.
  induction fuel as [|fuel IH]; intros lat' results results' E; cbn [latLoop].
  - split; [exact E | reflexivity].
  - destruct (lat' <=? latMax b); [|split; [exact E | reflexivity]].
    destruct (lngLoop_coords towers towers' r (lngMax b) lat' (S fuel) (lngMin b)
                _ _ E) as [E1 E2].
    destruct (lngLoop (S fuel) towers r (lngMax b) lat' (lngMin b) results)
      as [res1 st1].
    destruct (lngLoop (S fuel) towers' r (lngMax b) lat' (lngMin b) results')
      as [res2 st2].
    cbn [fst snd] in E1, E2. subst st2.
    destruct st1; cbn [fst snd]; auto.
Qed.

(** C10: with at least three towers whose coordinates are numbers, and for
    every resolution, every point that [generateGrid] has emitted, however
    long it has run, satisfies the guards [lat <= latMax] and
    [lng <= lngMax]; no call of [computeHdop] throws; and the first point
    emitted is [(latMin, lngMin)], so the array is not empty. *)
Theorem generateGrid_within_box towers r fuel :
  (3 <= length towers)%nat ->
  Forall hasCoordinates towers ->
  let b := boundingBox towers in
  let emitted := fst (generateGrid (S fuel) towers r) in
  Forall (fun p => fle (g_lat p) (latMax b) /\ fle (g_lng p) (lngMax b)) emitted
  /\ snd (generateGrid (S fuel) towers r) <> Thrown
  /\ (exists h rest, emitted = mkGridPoint (latMin b) (lngMin b) h r :: rest)
  /\ emitted <> [].
Proof.
  intros Hlen Hall b emitted. subst emitted. unfold generateGrid.
  destruct (Nat.ltb_spec (length towers) 3) as [H | _]; [lia|].
  cbv zeta. fold b.
  destruct (latLoop_spec towers r b (S fuel) (latMin b) [])
    as (new & E & HP & HT & Hfirst).
  cbn [app] in E. rewrite E.
  assert (Hne : towers <> []) by (destruct towers; [simpl in Hlen; lia | discriminate]).
  destruct (boundingBox_ordered towers Hall Hne) as [Hlat Hlng]. fold b in Hlat, Hlng.
  destruct (Hfirst ltac:(discriminate) Hlat Hlng) as (h & rest & Enew).
  split; [|split; [exact HT | split]].
  - eapply Forall_impl; [|exact HP]. intros p (H1 & H2 & _). split; assumption.
  - exists h, rest. exact Enew.
  - rewrite Enew. discriminate.
Qed.

Lemma generateGrid_within_box_witness :
  (3 <= length towersSanFrancisco)%nat
  /\ hd_error (coordsOf (fst (generateGrid 1 towersSanFrancisco 0.001)))
     = Some (37.7749, -122.4194, 0.001).
Proof.
  split; [vm_compute; lia|].
  destruct (generateGrid_within_box towersSanFrancisco 0.001 0) as (_ & _ & H & _).
  - vm_compute. lia.
  - repeat constructor.
  - destruct H as (h & rest & ->). reflexivity.
Defined.

(** What does hold of every result: [computeHdop] never throws, and what it
    returns is the sentinel, [NaN], or a number that is not below zero
    (possibly [Infinity]). *)
Lemma binary_round_aux_positive mx ex lx :
  let v := binary_round_aux prec emax false mx ex lx in
  v = S754_nan \/ SFleb (S754_zero false) v = true.
Proof.
  cbv zeta. unfold binary_round_aux.
  destruct (shr_fexp prec emax mx ex lx) as [mrs' e'].
  destruct (shr_fexp prec emax _ e' loc_Exact) as [mrs'' e''].
  destruct (shr_m mrs'') as [|m|m]; [right; reflexivity | | left; reflexivity].
  destruct (Z.leb e'' (Z.sub emax prec)); right; reflexivity.
Qed.

Lemma sqrt_nan_or_nonnegative x : sqrt x = nan \/ fle 0 (sqrt x).
Proof.
  unfold fle. rewrite leb_spec, sqrt_spec.
  change (Prim2SF 0) with (S754_zero false).
  assert (H : SF64sqrt (Prim2SF x) = S754_nan
              \/ SFleb (S754_zero false) (SF64sqrt (Prim2SF x)) = true).
  { destruct (Prim2SF x) as [s|s| |s m e]; cbn [SF64sqrt SFsqrt].
    - right. reflexivity.
    - destruct s; [left | right]; reflexivity.
    - left. reflexivity.
    - destruct s; [left; reflexivity|].
      destruct (SFsqrt_core_binary prec emax (Zpos m) e) as [[mz ez] lz].
      apply binary_round_aux_positive. }
  destruct H as [H | H]; [left | right; exact H].
  apply Prim2SF_nan_inv. rewrite sqrt_spec. exact H.
Qed.

Lemma computeHdop_range qlat qlng towers :
  exists h, computeHdop qlat qlng towers = Normal h
            /\ (h = sentinel \/ h = nan \/ fle 0 h).
Proof.
  destruct (Nat.ltb_spec (length towers) 3) as [H | H].
  - exists sentinel. split; [|left; reflexivity]. unfold computeHdop.
    destruct (Nat.ltb_spec (length towers) 3); [reflexivity | lia].
  - eexists. split; [apply computeHdop_normal; exact H|].
    cbv zeta. unfold hdopOfNormal. destruct (_ =? 0); [left; reflexivity|].
    right. apply sqrt_nan_or_nonnegative.
Qed.

(** C1 (the code departs from it): a tower on the query point makes
    [computeHdop] return [NaN], which is neither a finite non-negative
    number nor the sentinel; [generateGrid] meets the case at its first
    point whenever a tower sits on the south-west corner of the bounding
    box.  Here three towers and the resolution 0.001: both points of the
    grid carry [NaN]. *)
Theorem computeHdop_nan_escapes_sentinel :
  computeHdop 37.7749 (-122.4194) towersSanFrancisco = Normal nan
  /\ finiteNonNegative nan = false
  /\ (nan =? sentinel) = false
  /\ generateGrid 3 towersSanFrancisco 0.001
     = ([mkGridPoint 37.7749 (-122.4194) nan 0.001;
         mkGridPoint (37.7749 + 0.001) (-122.4194) nan 0.001], Finished).
Proof. repeat split; vm_compute; reflexivity. Qed.

(** ** The 3x3 grid *)

Lemma sf_eqb_cases p q :
  SFeqb p q = true ->
  p = q \/ (exists s s', p = S754_zero s /\ q = S754_zero s').
Proof.
  unfold SFeqb. intros H.
  destruct p as [s1|s1| |s1 m1 e1], q as [s2|s2| |s2 m2 e2]; simpl in H;
    try discriminate;
    try solve [destruct s1; discriminate]; try solve [destruct s2; discriminate].
  - right. eauto.
  - left. destruct s1, s2; try discriminate; reflexivity.
  - left.
    assert (E : s1 = s2 /\ e1 = e2 /\ m1 = m2).
    { destruct s1, s2; try discriminate; cmp_cases; simpl in H;
        try discriminate; subst; auto. }
    destruct E as (-> & -> & ->). reflexivity.
Qed.

Lemma eqb_zero_cases x : (x =? 0) = true -> x = 0 \/ x = neg_zero.
Proof.
  intros H. destruct (is_zero_spec x H) as [[|] E].
  - right. apply Prim2SF_inj. rewrite E. reflexivity.
  - left. apply Prim2SF_inj. rewrite E. reflexivity.
Qed.

Lemma eqb_nonzero_eq x y : (x =? y) = true -> is_zero y = false -> x = y.
Proof.
  intros H Hy. rewrite FloatAxioms.eqb_spec in H.
  destruct (sf_eqb_cases _ _ H) as [E | (s & s' & _ & E)].
  - apply Prim2SF_inj. exact E.
  - exfalso. unfold is_zero in Hy. rewrite FloatAxioms.eqb_spec, E in Hy.
    discriminate.
Qed.

Lemma coordsOf_length l : length (coordsOf l) = length l.
Proof. apply length_map. Qed.

(** The run on a box with corners [(lo1, lo2)] and [(0.002, 0.002)], where
    [lo1] and [lo2] are zeros of either sign. *)
Lemma latLoop_3x3 towers k lo1 lo2 :
  (3 <= length towers)%nat ->
  (lo1 = 0 \/ lo1 = neg_zero) -> (lo2 = 0 \/ lo2 = neg_zero) ->
  exists pts,
    latLoop (6 + k) towers 0.001 (mkBBox lo1 0.002 lo2 0.002) lo1 [] = (pts, Finished)
    /\ length pts = 9%nat
    /\ coordsMatch (coordsOf pts) grid3x3 = true
    /\ Forall (fun p => res p = 0.001
                        /\ computeHdop (g_lat p) (g_lng p) towers = Normal (hdop p)) pts.
Proof.
  intros Hlen H1 H2.
  set (b := mkBBox lo1 0.002 lo2 0.002).
  destruct (latLoop_coords towers towersTriangle 0.001 b 6 lo1 [] [] eq_refl)
    as [Ec Es].
  destruct (latLoop_spec towers 0.001 b 6 lo1 []) as (new & E & HP & _ & _).
  cbn [app] in E.
  assert (Hfin : snd (latLoop 6 towers 0.001 b lo1 []) = Finished).
  { rewrite Es. subst b. destruct H1 as [-> | ->], H2 as [-> | ->]; reflexivity. }
  rewrite latLoop_more_fuel by (rewrite Hfin; discriminate).
  destruct (latLoop 6 towers 0.001 b lo1 []) as [pts st].
  cbn [fst snd] in *. clear Es. subst st new.
  exists pts. split; [reflexivity|].
  assert (Hm : coordsMatch (coordsOf pts) grid3x3 = true
               /\ length (coordsOf pts) = 9%nat).
  { rewrite Ec. subst b.
    destruct H1 as [-> | ->], H2 as [-> | ->]; split; vm_compute; reflexivity. }
  destruct Hm as [Hm Hl]. rewrite coordsOf_length in Hl.
  split; [exact Hl|]. split; [exact Hm|].
  eapply Forall_impl; [|exact HP]. intros p (_ & _ & Hr & Hh). split; assumption.
Qed.

(** C5: with at least three towers whose bounding box is exactly
    [0,0]-[0.002,0.002], [generateGrid] called with the resolution 0.001
    returns exactly nine points, whose [lat] and [lng] run through
    0, 0.001 and 0.002 in row order, each with [res = 0.001] and the [hdop]
    that [computeHdop] gives there. *)
Theorem generateGrid_3x3 towers fuel :
  (3 <= length towers)%nat ->
  (6 <= fuel)%nat ->
  let b := boundingBox towers in
  (latMin b =? 0) = true -> (lngMin b =? 0) = true ->
  (latMax b =? 0.002) = true -> (lngMax b =? 0.002) = true ->
  exists pts,
    generateGrid fuel towers 0.001 = (pts, Finished)
    /\ length pts = 9%nat
    /\ coordsMatch (coordsOf pts) grid3x3 = true
    /\ Forall (fun p => res p = 0.001
                        /\ computeHdop (g_lat p) (g_lng p) towers = Normal (hdop p)) pts.
Proof.
  intros Hlen Hfuel b Ha Hc Hb Hd. unfold generateGrid.
  destruct (Nat.ltb_spec (length towers) 3) as [H | _]; [lia|].
  cbv zeta. fold b. destruct b as [la lA lo lO]. cbn [latMin latMax lngMin lngMax] in *.
  apply eqb_zero_cases in Ha, Hc.
  apply eqb_nonzero_eq in Hb; [|reflexivity].
  apply eqb_nonzero_eq in Hd; [|reflexivity].
  subst lA lO.
  replace fuel with (6 + (fuel - 6))%nat by lia.
  apply latLoop_3x3; assumption.
Qed.

Lemma generateGrid_3x3_witness :
  (3 <= length towersCorner)%nat
  /\ coordsOf (fst (generateGrid 6 towersCorner 0.001)) = grid3x3.
Proof.
  split; [vm_compute; lia|].
  destruct (generateGrid_3x3 towersCorner 6) as (pts & E & _).
  - vm_compute. lia.
  - lia.
  - reflexivity.
  - reflexivity.
  - reflexivity.
  - reflexivity.
  - reflexivity.
Defined.

(** ** The grouping loop of [findTowerClusterCenter] *)

Section Grouping.
Variable M : MathHost.
Variable thr : float.

Lemma joinFirst_perm base : forall groups groups',
  joinFirst M thr base groups = Some groups' ->
  Permutation (concat groups') (concat groups ++ [base]).
Proof.
  induction groups as [|g rest IH]; intros groups' H; cbn [joinFirst] in H.
  - discriminate.
  - destruct (existsb (near M thr base) g).
    + injection H as <-. cbn [concat]. rewrite <- !app_assoc.
      apply Permutation_app_head, Permutation_app_comm.
    + destruct (joinFirst M thr base rest) as [rest'|]; [|discriminate].
      injection H as <-. cbn [concat]. rewrite <- app_assoc.
      apply Permutation_app_head, IH. reflexivity.
Qed.

Lemma joinFirst_nonempty base : forall groups groups',
  Forall (fun g => g <> []) groups ->
  joinFirst M thr base groups = Some groups' ->
  Forall (fun g => g <> []) groups'.
Proof.
  induction groups as [|g rest IH]; intros groups' Hall H; cbn [joinFirst] in H.
  - discriminate.
  - inversion Hall as [|? ? Hg Hrest]; subst.
    destruct (existsb (near M thr base) g).
    + injection H as <-. constructor; [|exact Hrest].
      destruct g; discriminate.
    + destruct (joinFirst M thr base rest) as [rest'|]; [|discriminate].
      injection H as <-. constructor; [exact Hg | apply IH; auto].
Qed.

Lemma place_perm groups base :
  Permutation (concat (place M thr groups base)) (concat groups ++ [base]).
Proof.
  unfold place. destruct (joinFirst M thr base groups) as [groups'|] eqn:E.
  - apply joinFirst_perm. exact E.
  - rewrite concat_app. cbn [concat]. rewrite app_nil_r. reflexivity.
Qed.

Lemma place_nonempty groups base :
  Forall (fun g => g <> []) groups ->
  Forall (fun g => g <> []) (place M thr groups base).
Proof.
  intros Hall. unfold place.
  destruct (joinFirst M thr base groups) as [groups'|] eqn:E.
  - eapply joinFirst_nonempty; eassumption.
  - apply Forall_app. split; [exact Hall|]. constructor; [discriminate | constructor].
Qed.

Lemma fold_place_perm towers : forall groups,
  Permutation (concat (fold_left (place M thr) towers groups))
              (concat groups ++ towers).
Proof.
  induction towers as [|t ts IH]; intros groups; cbn [fold_left].
  - rewrite app_nil_r. reflexivity.
  - rewrite IH. rewrite place_perm, <- app_assoc. reflexivity.
Qed.

Lemma fold_place_nonempty towers : forall groups,
  Forall (fun g => g <> []) groups ->
  Forall (fun g => g <> []) (fold_left (place M thr) towers groups).
Proof.
  induction towers as [|t ts IH]; intros groups Hall; cbn [fold_left].
  - exact Hall.
  - apply IH, place_nonempty, Hall.
Qed.

Lemma groupTowers_perm towers :
  Permutation (concat (groupTowers M thr towers)) towers.
Proof. apply (fold_place_perm towers []). Qed.

Lemma groupTowers_nonempty towers :
  Forall (fun g => g <> []) (groupTowers M thr towers).
Proof. apply fold_place_nonempty. constructor. Qed.
End Grouping.

(** C7: the grouping loop partitions the towers: the groups, concatenated,
    are a rearrangement of the input list, so every occurrence of a tower
    lies in exactly one group and the groups together are the input; no
    group is empty. *)
Theorem groupTowers_partition (M : MathHost) (thr : float) (towers : list Tower) :
  Permutation (concat (groupTowers M thr towers)) towers
  /\ Forall (fun g => g <> []) (groupTowers M thr towers)
  /\ length (concat (groupTowers M thr towers)) = length towers.
Proof.
  split; [apply groupTowers_perm|]. split; [apply groupTowers_nonempty|].
  apply Permutation_length, groupTowers_perm.
Qed.

(** ** The choice of the largest group *)

Lemma largest_fold groups : forall init,
  let g := fold_left pickLarger groups init in
  (g = init /\ Forall (fun g' => (length g' < length init)%nat) groups)
  \/ (exists pre post,
        groups = pre ++ g :: post
        /\ Forall (fun g' => (length g' <= length g)%nat) pre
        /\ (length init <= length g)%nat
        /\ Forall (fun g' => (length g' < length g)%nat) post).
Proof.
  induction groups as [|b rest IH]; intros init; cbv zeta.
  - left. split; [reflexivity | constructor].
  - cbn [fold_left].
    destruct (Nat.ltb_spec (length b) (length init)) as [Hlt | Hge].
    + assert (Ep : pickLarger init b = init).
      { unfold pickLarger. destruct (Nat.ltb_spec (length b) (length init)); [reflexivity | lia]. }
      rewrite Ep.
      destruct (IH init) as [[E Hall] | (pre & post & E & Hpre & Hinit & Hpost)].
      * left. split; [exact E|]. constructor; assumption.
      * right. exists (b :: pre), post.
        split; [cbn [app]; f_equal; exact E|].
        split; [constructor; [lia | exact Hpre]|]. split; assumption.
    + assert (Ep : pickLarger init b = b).
      { unfold pickLarger. destruct (Nat.ltb_spec (length b) (length init)); [lia | reflexivity]. }
      rewrite Ep.
      destruct (IH b) as [[E Hall] | (pre & post & E & Hpre & Hinit & Hpost)].
      * right. exists [], rest. rewrite E.
        split; [reflexivity|]. split; [constructor|]. split; [exact Hge | exact Hall].
      * right. exists (b :: pre), post.
        split; [cbn [app]; f_equal; exact E|].
        split; [constructor; [exact Hinit | exact Hpre]|]. split; [lia | exact Hpost].
Qed.

Lemma largestGroup_last_maximal groups :
  groups <> [] ->
  exists pre post,
    groups = pre ++ largestGroup groups :: post
    /\ Forall (fun g' => (length g' <= length (largestGroup groups))%nat) pre
    /\ Forall (fun g' => (length g' < length (largestGroup groups))%nat) post.
Proof.
  intros Hne. unfold largestGroup.
  destruct (largest_fold groups []) as [[_ Hall] | (pre & post & E & Hpre & _ & Hpost)].
  - destruct groups as [|g rest]; [congruence|].
    inversion Hall as [|? ? Hg _]; subst. simpl in Hg. lia.
  - exists pre, post. auto.
Qed.

(** ** [findTowerClusterCenter] *)

Lemma groupTowers_two M thr t1 t2 :
  groupTowers M thr [t1; t2]
  = if near M thr t2 t1 then [[t1; t2]] else [[t1]; [t2]].
Proof.
  unfold groupTowers. cbn [fold_left]. unfold place at 2. cbn [joinFirst app].
  unfold place. cbn [joinFirst existsb]. rewrite orb_false_r.
  destruct (near M thr t2 t1); reflexivity.
Qed.

Lemma groupTowers_not_nil M thr towers :
  towers <> [] -> groupTowers M thr towers <> [].
Proof.
  intros Hne E. pose proof (groupTowers_perm M thr towers) as HP.
  rewrite E in HP. cbn [concat] in HP. apply Permutation_nil in HP. congruence.
Qed.

(** C4, as the code has it: [findTowerClusterCenter] selects a group with
    the most members, and among groups of that size the one created last
    (the fold keeps its accumulator only when it is strictly longer), and
    returns the mean of [lat] and of [lng] over that group.  For two towers
    that the distance test puts in one group this is their midpoint; for
    two towers that it separates it is the mean over the second tower
    alone. *)
Theorem findTowerClusterCenter_largest_group M towers thr :
  towers <> [] ->
  let groups := groupTowers M thr towers in
  let largest := largestGroup groups in
  (exists pre post,
      groups = pre ++ largest :: post
      /\ Forall (fun g => (length g <= length largest)%nat) pre
      /\ Forall (fun g => (length g < length largest)%nat) post)
  /\ findTowerClusterCenter M towers thr
     = Some (fold_left (fun sum t => sum + lat t) largest 0 / lengthNum largest,
             fold_left (fun sum t => sum + lng t) largest 0 / lengthNum largest)
  /\ (forall t1 t2, towers = [t1; t2] -> near M thr t2 t1 = true ->
      findTowerClusterCenter M towers thr
      = Some ((0 + lat t1 + lat t2) / 2, (0 + lng t1 + lng t2) / 2))
  /\ (forall t1 t2, towers = [t1; t2] -> near M thr t2 t1 = false ->
      findTowerClusterCenter M towers thr
      = Some ((0 + lat t2) / 1, (0 + lng t2) / 1)).
Proof.
  intros Hne groups largest.
  assert (Hcenter : findTowerClusterCenter M towers thr
                    = Some (average lat largest, average lng largest)).
  { unfold findTowerClusterCenter.
    destruct towers as [|t ts]; [congruence | reflexivity]. }
  split; [|split; [|split]].
  - apply largestGroup_last_maximal, groupTowers_not_nil, Hne.
  - exact Hcenter.
  - intros t1 t2 -> Hnear. rewrite Hcenter. subst largest groups.
    rewrite groupTowers_two, Hnear. reflexivity.
  - intros t1 t2 -> Hnear. rewrite Hcenter. subst largest groups.
    rewrite groupTowers_two, Hnear. reflexivity.
Qed.

Lemma findTowerClusterCenter_largest_group_witness :
  [towerSouth; towerNorth] <> []
  /\ findTowerClusterCenter RefMath.host [towerSouth; towerNorth] defaultThreshold
     = Some (0.09, 0)
  /\ findTowerClusterCenter RefMath.host [towerSouth; towerEast] defaultThreshold
     = Some (0, 0.00045).
Proof.
  assert (H1 : [towerSouth; towerNorth] <> []) by discriminate.
  assert (H2 : [towerSouth; towerEast] <> []) by discriminate.
  split; [exact H1|]. split.
  - apply (proj2 (proj2 (proj2
      (findTowerClusterCenter_largest_group RefMath.host _ defaultThreshold H1)))
      towerSouth towerNorth eq_refl).
    vm_compute. reflexivity.
  - apply (proj1 (proj2 (proj2
      (findTowerClusterCenter_largest_group RefMath.host _ defaultThreshold H2)))
      towerSouth towerEast eq_refl).
    vm_compute. reflexivity.
Defined.

(** Against C4 as stated: of two groups of one tower each, the second is
    selected, so for two towers 10 km apart the result is the second
    tower's coordinates, not the first's. *)
Lemma findTowerClusterCenter_tie_selects_last :
  largestGroup [[towerSouth]; [towerNorth]] = [towerNorth]
  /\ groupTowers RefMath.host defaultThreshold [towerSouth; towerNorth]
     = [[towerSouth]; [towerNorth]]
  /\ findTowerClusterCenter RefMath.host [towerSouth; towerNorth] defaultThreshold
     = Some (lat towerNorth, lng towerNorth)
  /\ (lat towerNorth =? lat towerSouth) = false.
Proof. repeat split; vm_compute; reflexivity. Qed.

(** C2: with fewer than three towers [computeHdop] returns 100 at every
    query point and [generateGrid] returns the empty array, both without
    throwing; with no tower [findTowerClusterCenter] returns [null]. *)
Theorem few_towers_sentinels (M : MathHost) (towers : list Tower) :
  (length towers < 3)%nat ->
  (forall qlat qlng, computeHdop qlat qlng towers = Normal 100)
  /\ (forall fuel r, generateGrid fuel towers r = ([], Finished))
  /\ (forall thr, towers = [] -> findTowerClusterCenter M towers thr = None).
Proof.
  intros Hlen. split; [|split].
  - intros qlat qlng. unfold computeHdop.
    destruct (Nat.ltb_spec (length towers) 3); [reflexivity | lia].
  - intros fuel r. unfold generateGrid.
    destruct (Nat.ltb_spec (length towers) 3); [reflexivity | lia].
  - intros thr ->. reflexivity.
Qed.

Lemma few_towers_sentinels_witness :
  computeHdop 0.5 0.5 [towerSouth; towerNorth] = Normal 100
  /\ generateGrid 0 [towerSouth; towerNorth] 0.001 = ([], Finished)
  /\ findTowerClusterCenter RefMath.host [] defaultThreshold = None.
Proof.
  assert (H2 : (length [towerSouth; towerNorth] < 3)%nat) by (vm_compute; lia).
  assert (H0 : (length (@nil Tower) < 3)%nat) by (vm_compute; lia).
  split; [|split].
  - apply (few_towers_sentinels RefMath.host _ H2).
  - apply (few_towers_sentinels RefMath.host _ H2).
  - apply (few_towers_sentinels RefMath.host _ H0). reflexivity.
Defined.

(** ** [haversine] *)

(** C3 (the code departs from it): the longitude delta of [haversine] is
    [lat2 - lon1], so [lon2] plays no part in the result.  On the equator,
    between longitudes 0 and 90, the program finds the distance 0 where the
    haversine formula gives a quarter of a great circle, about 10007.5 km. *)
Theorem haversine_ignores_lon2 :
  (forall M lat1 lon1 lat2 lon2 lon2',
      haversine M lat1 lon1 lat2 lon2 = haversine M lat1 lon1 lat2 lon2')
  /\ haversine RefMath.host 0 0 0 90 = 0
  /\ haversineStandard RefMath.host 0 0 0 90 = 10007.543398010284.
Proof. repeat split; vm_compute; reflexivity. Qed.

(** The values ECMA-262 fixes for the host functions suffice for that
    result: every conforming engine computes the distance 0 between two
    points of the equator when the first has longitude 0. *)
Lemma haversine_equator_zero (M : MathHost) (lon2 : float) :
  Math_sin M 0 = 0 -> Math_cos M 0 = 1 -> Math_atan2 M 0 1 = 0 ->
  Number_exponentiate M 0 2 = 0 ->
  haversine M 0 0 0 lon2 = 0.
Proof.
  intros Hsin Hcos Hatan Hpow. unfold haversine. cbv zeta.
  change (toRad (0 - 0) / 2) with 0. change (toRad 0) with 0.
  rewrite Hsin, Hcos, Hpow.
  change (sqrt (0 + 1 * 1 * 0)) with 0. change (sqrt (1 - (0 + 1 * 1 * 0))) with 1.
  rewrite Hatan. reflexivity.
Qed.

Lemma RefMath_fixed_values :
  Math_sin RefMath.host 0 = 0 /\ Math_cos RefMath.host 0 = 1
  /\ Math_atan2 RefMath.host 0 1 = 0 /\ Number_exponentiate RefMath.host 0 2 = 0.
Proof. repeat split; vm_compute; reflexivity. Qed.

(** Two towers 0.1 km apart on the equator at longitude 10: the distance
    test of the program sees them about 1112 km apart and separates them. *)
Lemma findTowerClusterCenter_close_towers_split :
  haversine RefMath.host 0 10 0 10.0009 = 1111.9492664455872
  /\ groupTowers RefMath.host defaultThreshold [mkTower 1 0 10; mkTower 2 0 10.0009]
     = [[mkTower 1 0 10]; [mkTower 2 0 10.0009]].
Proof. split; vm_compute; reflexivity. Qed.

(** ** A resolution that the coordinates absorb

    [generateGrid] need not return: when [lng + res] rounds to [lng] the
    inner loop pushes points without end.  The statements on the emitted
    points above hold at every stage of such a run. *)

Lemma lngLoop_absorbed : forall fuel results,
  snd (lngLoop fuel towersUnit tiny 2 1 1 results) = OutOfFuel.
Proof.
  induction fuel as [|fuel IH]; intros results; cbn [lngLoop].
  - reflexivity.
  - change (1 <=? 2) with true. cbv iota.
    destruct (computeHdop_total 1 1 towersUnit) as [h ->].
    change (1 + tiny) with 1. apply IH.
Qed.

Lemma generateGrid_absorbed_step : forall fuel,
  (0 <? tiny) = true /\ snd (generateGrid fuel towersUnit tiny) = OutOfFuel.
Proof.
  intros fuel. split; [reflexivity|].
  unfold generateGrid. change (boundingBox towersUnit) with (mkBBox 1 2 1 2).
  cbn [length Nat.ltb Nat.leb latMin]. destruct fuel as [|fuel]; cbn [latLoop].
  - reflexivity.
  - cbn [latMax lngMax lngMin]. change (1 <=? 2) with true. cbv iota.
    pose proof (lngLoop_absorbed (S fuel) []) as H.
    destruct (lngLoop (S fuel) towersUnit tiny 2 1 1 []) as [results st].
    cbn [snd] in H. subst st. reflexivity.
Qed.

(** * Further properties of the code *)

(** ** [mathTranspose] *)

Lemma map_nth_seq {A} (d : A) (l : list A) :
  map (fun i => nth i l d) (seq 0 (length l)) = l.
Proof.
  induction l as [|x l IH]; [reflexivity|].
  cbn [length seq map nth]. f_equal.
  rewrite <- seq_shift, map_map. exact IH.
Qed.

Lemma elem_column (A : matrix) (i j : nat) :
  (i < length A)%nat ->
  elem (map (fun row => elem row j) A) i = elem (nth i A []) j.
Proof.
  intros Hi. unfold elem at 1.
  rewrite (nth_indep _ nan (elem [] j)) by (rewrite length_map; exact Hi).
  apply (map_nth (fun row => elem row j)).
Qed.

(** X1: a matrix of [n >= 1] rows and [m >= 1] columns is transposed, without
    exception, into a matrix of [m] rows and [n] columns whose entry [(j, i)]
    is the entry [(i, j)] of the argument, and transposing twice gives the
    matrix back. *)
Theorem mathTranspose_involutive (n m : nat) (A : matrix) :
  (1 <= n)%nat -> (1 <= m)%nat -> rectangular n m A ->
  exists At,
    mathTranspose A = Normal At
    /\ rectangular m n At
    /\ (forall i j, (i < n)%nat -> (j < m)%nat ->
                    elem (nth j At []) i = elem (nth i A []) j)
    /\ mathTranspose At = Normal A.
Proof.
  intros Hn Hm [Hlen Hrows].
  destruct A as [|r0 rest]; [simpl in Hlen; lia|].
  assert (Hr0 : length r0 = m) by (inversion Hrows; assumption).
  set (A := r0 :: rest) in *.
  set (At := map (fun i => map (fun row => elem row i) A) (seq 0 m)).
  assert (HT : mathTranspose A = Normal At).
  { unfold mathTranspose, A. rewrite Hr0. reflexivity. }
  assert (HlenAt : length At = m) by (unfold At; rewrite length_map, length_seq; reflexivity).
  assert (Hentry : forall i j, (i < n)%nat -> (j < m)%nat ->
                               elem (nth j At []) i = elem (nth i A []) j).
  { intros i j Hi Hj. unfold At.
    rewrite (nth_indep _ [] ((fun i => map (fun row => elem row i) A) 0%nat))
      by (rewrite length_map, length_seq; exact Hj).
    rewrite (map_nth (fun i => map (fun row => elem row i) A)), seq_nth by exact Hj.
    apply elem_column. lia. }
  exists At. split; [exact HT|]. split; [|split; [exact Hentry|]].
  - split; [exact HlenAt|]. unfold At. apply Forall_forall.
    intros row Hrow. apply in_map_iff in Hrow. destruct Hrow as (i & <- & _).
    rewrite length_map. exact Hlen.
  - destruct m as [|m']; [lia|].
    assert (EAt : At = map (fun row => elem row 0) A
                       :: map (fun i => map (fun row => elem row i) A) (seq 1 m'))
      by reflexivity.
    unfold mathTranspose. rewrite EAt. cbv iota. rewrite <- EAt.
    rewrite length_map, Hlen. apply f_equal.
    transitivity (map (fun i => nth i A []) (seq 0 n));
      [|rewrite <- Hlen; apply map_nth_seq].
    apply map_ext_in. intros i Hi. apply in_seq in Hi.
    unfold At. rewrite map_map.
    assert (Hrow : length (nth i A []) = S m').
    { apply (proj1 (Forall_forall _ _) Hrows). apply nth_In. lia. }
    rewrite <- (map_nth_seq nan (nth i A [])), Hrow.
    apply map_ext_in. intros j Hj.
    change (nth j (nth i A []) nan) with (elem (nth i A []) j).
    apply elem_column. lia.
Qed.

Lemma mathTranspose_involutive_witness :
  mathTranspose [[1; 2; 3]; [4; 5; 6]] = Normal [[1; 4]; [2; 5]; [3; 6]]
  /\ mathTranspose [[1; 4]; [2; 5]; [3; 6]] = Normal [[1; 2; 3]; [4; 5; 6]].
Proof.
  destruct (mathTranspose_involutive 2 3 [[1; 2; 3]; [4; 5; 6]]) as (At & H1 & _ & _ & H2).
  - lia.
  - lia.
  - split; [reflexivity | repeat constructor].
  - assert (E : At = [[1; 4]; [2; 5]; [3; 6]]).
    { vm_compute in H1. injection H1 as <-. reflexivity. }
    rewrite E in H1, H2. split; assumption.
Defined.

(** ** [mathMultiply] *)

Lemma skipn_nth_error {A} (l : list A) : forall i x,
  nth_error l i = Some x -> skipn i l = x :: skipn (S i) l.
Proof.
  induction l as [|y l IH]; intros [|i] x H; try discriminate.
  - injection H as ->. reflexivity.
  - cbn [nth_error] in H. rewrite (skipn_cons i y l). apply IH. exact H.
Qed.

Lemma reduceRow_in_range (b : matrix) (j : nat) : forall row i sum,
  (i + length row <= length b)%nat ->
  reduceRow b j row i sum
  = Normal (fold_left (fun s vb => s + fst vb * elem (snd vb) j)
                      (combine row (skipn i b)) sum).
Proof.
  induction row as [|v row IH]; intros i sum Hlen; cbn [reduceRow].
  - reflexivity.
  - cbn [length] in Hlen.
    destruct (nth_error b i) as [bi|] eqn:E.
    + rewrite (skipn_nth_error _ _ _ E). cbn [combine fold_left fst snd].
      apply IH. lia.
    + apply nth_error_None in E. lia.
Qed.

Lemma reduceRow_out_of_range (b : matrix) (j : nat) : forall row i sum,
  (i <= length b)%nat -> (length b < i + length row)%nat ->
  reduceRow b j row i sum = Throw.
Proof.
  induction row as [|v row IH]; intros i sum Hi Hlen; cbn [reduceRow].
  - cbn [length] in Hlen. lia.
  - cbn [length] in Hlen.
    destruct (nth_error b i) as [bi|] eqn:E; [|reflexivity].
    assert (i < length b)%nat by (apply nth_error_Some; congruence).
    apply IH; lia.
Qed.

Lemma mapM_normal {A B} (f : A -> Completion B) (g : A -> B) (l : list A) :
  (forall x, In x l -> f x = Normal (g x)) -> mapM f l = Normal (map g l).
Proof.
  induction l as [|x l IH]; intros H; cbn [mapM map].
  - reflexivity.
  - rewrite (H x (or_introl eq_refl)). cbn [bind].
    rewrite IH by (intros y Hy; apply H; right; exact Hy). reflexivity.
Qed.

Lemma mapM_throw {A B} (f : A -> Completion B) (l : list A) :
  Exists (fun x => f x = Throw) l -> mapM f l = Throw.
Proof.
  induction 1 as [x l H | x l _ IH]; cbn [mapM].
  - rewrite H. reflexivity.
  - destruct (f x); [|reflexivity]. cbn [bind]. rewrite IH. reflexivity.
Qed.

(** One row of the product, as the callback of [a.map] computes it. *)
Lemma multiply_row_normal (b0 : list float) (rest : matrix) (row : list float) :
  (length row <= length (b0 :: rest))%nat ->
  mapM (fun j => reduceRow (b0 :: rest) j row 0 0) (seq 0 (length b0))
  = Normal (map (fun j => dotRow (b0 :: rest) j row) (seq 0 (length b0))).
Proof.
  intros Hlen. apply mapM_normal. intros j _.
  rewrite reduceRow_in_range by exact Hlen. reflexivity.
Qed.

Lemma multiply_row_throw (b0 : list float) (rest : matrix) (row : list float) :
  b0 <> [] -> (length (b0 :: rest) < length row)%nat ->
  mapM (fun j => reduceRow (b0 :: rest) j row 0 0) (seq 0 (length b0)) = Throw.
Proof.
  intros Hb0 Hlen. destruct b0 as [|x b0']; [congruence|].
  cbn [length seq mapM].
  rewrite reduceRow_out_of_range by (cbn [length] in *; lia). reflexivity.
Qed.

(** X2: [mathMultiply(a, b)] raises a [TypeError] exactly when [a] has a
    row and either [b] is empty, or the first row of [b] is not empty and
    some row of [a] has more components than [b] has rows.  A row of [a]
    shorter than [b] raises nothing. *)
Theorem mathMultiply_throws_iff (a b : matrix) :
  mathMultiply a b = Throw
  <-> a <> []
      /\ (b = [] \/ (hd [] b <> [] /\ Exists (fun row => (length b < length row)%nat) a)).
Proof.
  unfold mathMultiply. split.
  - intros H. destruct a as [|r a']; [discriminate|]. split; [discriminate|].
    destruct b as [|b0 rest]; [left; reflexivity|]. right. cbn [hd].
    destruct b0 as [|x b0'].
    + exfalso. rewrite (mapM_normal _ (fun _ => [])) in H; [discriminate|].
      intros row _. reflexivity.
    + split; [discriminate|].
      destruct (Forall_Exists_dec (fun row => (length row <= length ((x :: b0') :: rest))%nat)
                  (fun row => le_dec _ _) (r :: a')) as [Hall | Hex].
      * exfalso.
        rewrite (mapM_normal _ (fun row => map (fun j => dotRow ((x :: b0') :: rest) j row)
                                              (seq 0 (length (x :: b0'))))) in H;
          [discriminate|].
        intros row Hrow. apply multiply_row_normal.
        exact (proj1 (Forall_forall _ _) Hall row Hrow).
      * eapply Exists_impl; [|exact Hex]. intros row Hrow. cbv beta in Hrow. lia.
  - intros [Ha [-> | [Hb0 Hex]]].
    + destruct a as [|r a']; [congruence | reflexivity].
    + destruct b as [|b0 rest]; [cbn [hd] in Hb0; congruence|]. cbn [hd] in Hb0.
      apply mapM_throw. eapply Exists_impl; [|exact Hex].
      intros row Hrow. apply multiply_row_throw; assumption.
Qed.

(** X3: when [b] has a row and no row of [a] is longer than [b] has rows,
    [mathMultiply(a, b)] returns, for each row of [a], one sum per column of
    the first row of [b]: the products of the components of the row with the
    entries of that column, added from 0 in index order.  The result has as
    many rows as [a]; rows of [b] beyond the length of a row of [a] are
    ignored. *)
Theorem mathMultiply_entries (a b : matrix) :
  b <> [] ->
  Forall (fun row => (length row <= length b)%nat) a ->
  exists C,
    mathMultiply a b = Normal C
    /\ rectangular (length a) (length (hd [] b)) C
    /\ forall i j, (i < length a)%nat -> (j < length (hd [] b))%nat ->
                   elem (nth i C []) j = dotRow b j (nth i a []).
Proof.
  intros Hb Hall. destruct b as [|b0 rest]; [congruence|]. cbn [hd].
  set (b := b0 :: rest) in *.
  set (rowOf := fun row => map (fun j => dotRow b j row) (seq 0 (length b0))).
  exists (map rowOf a). split; [|split].
  - unfold mathMultiply. apply mapM_normal. intros row Hrow.
    apply multiply_row_normal. exact (proj1 (Forall_forall _ _) Hall row Hrow).
  - split; [apply length_map|]. apply Forall_forall. intros r Hr.
    apply in_map_iff in Hr. destruct Hr as (row & <- & _).
    unfold rowOf. rewrite length_map, length_seq. reflexivity.
  - intros i j Hi Hj.
    rewrite (nth_indep _ [] (rowOf [])) by (rewrite length_map; exact Hi).
    rewrite (map_nth rowOf). unfold rowOf, elem.
    rewrite (nth_indep _ nan ((fun j => dotRow b j (nth i a [])) 0%nat))
      by (rewrite length_map, length_seq; exact Hj).
    rewrite (map_nth (fun j => dotRow b j (nth i a []))), seq_nth by exact Hj.
    reflexivity.
Qed.

Lemma mathMultiply_entries_witness :
  mathMultiply [[1; 2]; [3; 4]] [[5; 6]; [7; 8]] = Normal [[19; 22]; [43; 50]].
Proof.
  destruct (mathMultiply_entries [[1; 2]; [3; 4]] [[5; 6]; [7; 8]]) as (C & H & _).
  - discriminate.
  - repeat constructor.
  - rewrite H. vm_compute in H. injection H as <-. reflexivity.
Defined.

(** ** Symmetry of the normal matrix *)

Lemma sf_mul_comm p q : SF64mul p q = SF64mul q p.
Proof.
  destruct p as [s1|s1| |s1 m1 e1], q as [s2|s2| |s2 m2 e2];
    cbn [SF64mul SFmul]; try reflexivity;
    try (rewrite (xorb_comm s1 s2); reflexivity).
  rewrite (xorb_comm s1 s2), (Pos.mul_comm m1 m2), (Z.add_comm e1 e2). reflexivity.
Qed.

Lemma float_mul_comm x y : x * y = y * x.
Proof. apply Prim2SF_inj. rewrite !mul_spec. apply sf_mul_comm. Qed.

Lemma dotCol_comm (c j : nat) (A : matrix) : dotCol c j A = dotCol j c A.
Proof.
  unfold dotCol. generalize 0. induction A as [|row A IH]; intros acc.
  - reflexivity.
  - cbn [fold_left]. rewrite (float_mul_comm (elem row c) (elem row j)). apply IH.
Qed.

(** X4: with at least three towers the matrix [G] that [computeHdop] builds
    is symmetric, [G[0][1] = G[1][0]] as binary64 values, so the determinant
    it tests is [G00*G11 - G01*G01]. *)
Theorem computeHdop_normal_matrix_symmetric qlat qlng towers :
  (3 <= length towers)%nat ->
  exists g00 g01 g11,
    (At <- mathTranspose (map (losRow qlat qlng) towers) ;;
     mathMultiply At (map (losRow qlat qlng) towers))
    = Normal [[g00; g01]; [g01; g11]]
    /\ computeHdop qlat qlng towers
       = Normal (let det := g00 * g11 - g01 * g01 in
                 if det =? 0 then 100 else sqrt (g11 / det + g00 / det)).
Proof.
  intros Hlen.
  set (A := map (losRow qlat qlng) towers).
  exists (dotCol 0 0 A), (dotCol 0 1 A), (dotCol 1 1 A). split.
  - rewrite (normal_matrix A) by (apply losRows_shape; lia).
    rewrite (dotCol_comm 1 0 A). reflexivity.
  - rewrite (computeHdop_normal _ _ _ Hlen). cbv zeta. fold A.
    unfold hdopOfNormal. rewrite (dotCol_comm 1 0 A). reflexivity.
Qed.

Lemma computeHdop_normal_matrix_symmetric_witness :
  (3 <= length towersTriangle)%nat
  /\ (At <- mathTranspose (map (losRow 0.5 0.2) towersTriangle) ;;
      mathMultiply At (map (losRow 0.5 0.2) towersTriangle))
     = Normal [[0.99496319256102261; -0.44943820224719094];
               [-0.44943820224719094; 2.0050368074389766]].
Proof.
  assert (H3 : (3 <= length towersTriangle)%nat) by (vm_compute; lia).
  split; [exact H3|].
  destruct (computeHdop_normal_matrix_symmetric 0.5 0.2 towersTriangle H3)
    as (g00 & g01 & g11 & HG & _).
  rewrite HG. vm_compute in HG. symmetry. exact HG.
Defined.

(** ** The points of [generateGrid] *)

(** X5: every point that [generateGrid] has pushed, at any stage of a run,
    carries the resolution of the call and the value that [computeHdop]
    returns for its coordinates and the whole tower list; that value is the
    sentinel 100, [NaN], or a number that is not below zero. *)
Theorem generateGrid_points_scored fuel towers r p :
  In p (fst (generateGrid fuel towers r)) ->
  res p = r
  /\ computeHdop (g_lat p) (g_lng p) towers = Normal (hdop p)
  /\ (hdop p = 100 \/ hdop p = nan \/ fle 0 (hdop p)).
Proof.
  unfold generateGrid.
  destruct (length towers <? 3)%nat; [intros []|]. cbv zeta.
  destruct (latLoop_spec towers r (boundingBox towers) fuel
              (latMin (boundingBox towers)) []) as (new & E & HP & _).
  cbn [app] in E. rewrite E. intros HIn.
  destruct (proj1 (Forall_forall _ _) HP p HIn) as (_ & _ & Hr & Hh).
  split; [exact Hr|]. split; [exact Hh|].
  destruct (computeHdop_range (g_lat p) (g_lng p) towers) as (h & Eh & Hrange).
  rewrite Hh in Eh. injection Eh as <-. exact Hrange.
Qed.

Lemma generateGrid_points_scored_witness :
  computeHdop 0 0.001 towersCorner = Normal 1.3693063937629153.
Proof.
  apply (generateGrid_points_scored 6 towersCorner 0.001
           (mkGridPoint 0 0.001 1.3693063937629153 0.001)).
  vm_compute. right. left. reflexivity.
Defined.

Lemma add_zero_fle x r m : is_zero r = true -> fle x m -> fle (x + r) m.
Proof.
  intros Hr. destruct (is_zero_spec r Hr) as [s Er].
  unfold fle. rewrite !leb_spec, add_spec, Er.
  destruct (Prim2SF x) as [s1|s1| |s1 m1 e1]; cbn [SF64add SFadd]; try (intros H; exact H).
  destruct s1, s; intros H; exact H.
Qed.

Section ZeroResolution.
Variable towers : list Tower.
Variable r : float.
Hypothesis Hr : is_zero r = true.

Lemma lngLoop_zero_resolution (lngMax' lat' : float) : forall fuel lng' results,
  fle lng' lngMax' ->
  snd (lngLoop fuel towers r lngMax' lat' lng' results) = OutOfFuel
  /\ length (fst (lngLoop fuel towers r lngMax' lat' lng' results))
     = (length results + fuel)%nat.
Proof.
  induction fuel as [|fuel IH]; intros lng' results Hle; cbn [lngLoop].
  - cbn [fst snd]. split; [reflexivity | lia].
  - unfold fle in Hle. rewrite Hle.
    destruct (computeHdop_total lat' lng' towers) as [h ->].
    destruct (IH (lng' + r) (results ++ [mkGridPoint lat' lng' h r])
                 (add_zero_fle _ _ _ Hr Hle)) as [H1 H2].
    split; [exact H1|]. rewrite H2, length_app. cbn [length]. lia.
Qed.
End ZeroResolution.

(** X6: with at least three towers whose coordinates are numbers and a
    resolution that is zero, [generateGrid] never returns: the inner loop
    stays at its first longitude and pushes a point at every iteration. *)
Theorem generateGrid_zero_resolution towers r fuel :
  (3 <= length towers)%nat ->
  Forall hasCoordinates towers ->
  is_zero r = true ->
  snd (generateGrid fuel towers r) = OutOfFuel
  /\ length (fst (generateGrid fuel towers r)) = fuel.
Proof.
  intros Hlen Hall Hr. unfold generateGrid.
  destruct (Nat.ltb_spec (length towers) 3) as [H | _]; [lia|]. cbv zeta.
  assert (Hne : towers <> []) by (destruct towers; [simpl in Hlen; lia | discriminate]).
  destruct (boundingBox_ordered towers Hall Hne) as [Hlat Hlng].
  destruct fuel as [|fuel]; cbn [latLoop].
  - split; reflexivity.
  - unfold fle in Hlat. rewrite Hlat.
    destruct (lngLoop_zero_resolution towers r Hr (lngMax (boundingBox towers))
                (latMin (boundingBox towers)) (S fuel)
                (lngMin (boundingBox towers)) [] Hlng) as [H1 H2].
    destruct (lngLoop (S fuel) towers r _ _ _ []) as [results st].
    cbn [fst snd] in H1, H2. subst st. cbn [fst snd length] in *. split; [reflexivity | exact H2].
Qed.

Lemma generateGrid_zero_resolution_witness :
  snd (generateGrid 5 towersCorner 0) = OutOfFuel
  /\ length (fst (generateGrid 5 towersCorner 0)) = 5%nat.
Proof.
  apply (generateGrid_zero_resolution towersCorner 0 5).
  - vm_compute. lia.
  - repeat constructor.
  - reflexivity.
Defined.

Section AxisProduct.
Variable towers : list Tower.
Variable r : float.

Lemma lngLoop_axis (lngMax' lat' : float) : forall n lng' lngs,
  axisRun n lng' lngMax' r = (lngs, true) ->
  forall fuel results, (n <= fuel)%nat ->
  exists pts,
    lngLoop fuel towers r lngMax' lat' lng' results = (results ++ pts, Finished)
    /\ map (fun p => (g_lat p, g_lng p)) pts = map (pair lat') lngs.
Proof.
  induction n as [|n IH]; intros lng' lngs Hrun fuel results Hfuel;
    cbn [axisRun] in Hrun; [discriminate|].
  destruct fuel as [|fuel]; [lia|]. cbn [lngLoop].
  destruct (lng' <=? lngMax').
  - destruct (axisRun n (lng' + r) lngMax' r) as [l done] eqn:E.
    injection Hrun as <- ->.
    destruct (computeHdop_total lat' lng' towers) as [h ->].
    destruct (IH _ _ E fuel (results ++ [mkGridPoint lat' lng' h r]) ltac:(lia))
      as (pts & -> & Hpts).
    exists (mkGridPoint lat' lng' h r :: pts).
    split; [rewrite <- app_assoc; reflexivity|].
    cbn [map g_lat g_lng]. rewrite Hpts. reflexivity.
  - injection Hrun as <-. exists []. rewrite app_nil_r. split; reflexivity.
Qed.

Lemma latLoop_axis (b : BBox) (n2 : nat) (lngs : list float) :
  axisRun n2 (lngMin b) (lngMax b) r = (lngs, true) ->
  forall n1 lat' lats,
  axisRun n1 lat' (latMax b) r = (lats, true) ->
  forall fuel results, (n1 + n2 <= fuel)%nat ->
  exists pts,
    latLoop fuel towers r b lat' results = (results ++ pts, Finished)
    /\ map (fun p => (g_lat p, g_lng p)) pts = list_prod lats lngs.
Proof.
  intros Hlng.
  induction n1 as [|n1 IH]; intros lat' lats Hrun fuel results Hfuel;
    cbn [axisRun] in Hrun; [discriminate|].
  destruct fuel as [|fuel]; [lia|]. cbn [latLoop].
  destruct (lat' <=? latMax b).
  - destruct (axisRun n1 (lat' + r) (latMax b) r) as [l done] eqn:E.
    injection Hrun as <- ->.
    destruct (lngLoop_axis (lngMax b) lat' _ _ _ Hlng (S fuel) results ltac:(lia))
      as (pts1 & -> & Hpts1).
    destruct (IH _ _ E fuel (results ++ pts1) ltac:(lia)) as (pts2 & -> & Hpts2).
    exists (pts1 ++ pts2). split; [rewrite <- app_assoc; reflexivity|].
    rewrite map_app, Hpts1, Hpts2. reflexivity.
  - injection Hrun as <-. exists []. rewrite app_nil_r. split; reflexivity.
Qed.
End AxisProduct.

(** X7: the nested loops of [generateGrid] enumerate a full rectangle.  With
    at least three towers, if the progression of latitudes from [latMin] by
    steps of the resolution passes [latMax] and the progression of
    longitudes passes [lngMax], then [generateGrid] returns, and the
    coordinates of its points are the product of the two progressions in
    row order: every latitude with every longitude. *)
Theorem generateGrid_is_product towers r n1 n2 lats lngs fuel :
  (3 <= length towers)%nat ->
  let b := boundingBox towers in
  axisRun n1 (latMin b) (latMax b) r = (lats, true) ->
  axisRun n2 (lngMin b) (lngMax b) r = (lngs, true) ->
  (n1 + n2 <= fuel)%nat ->
  exists pts,
    generateGrid fuel towers r = (pts, Finished)
    /\ map (fun p => (g_lat p, g_lng p)) pts = list_prod lats lngs
    /\ length pts = (length lats * length lngs)%nat.
Proof.
  intros Hlen b Hlat Hlng Hfuel. unfold generateGrid.
  destruct (Nat.ltb_spec (length towers) 3) as [H | _]; [lia|]. cbv zeta. fold b.
  destruct (latLoop_axis towers r b n2 lngs Hlng n1 _ lats Hlat fuel [] Hfuel)
    as (pts & E & Hpts).
  cbn [app] in E. exists pts. split; [exact E|]. split; [exact Hpts|].
  rewrite <- (length_map (fun p => (g_lat p, g_lng p))), Hpts. apply length_prod.
Qed.

Lemma generateGrid_is_product_witness :
  (3 <= length towersCorner)%nat
  /\ map (fun p => (g_lat p, g_lng p)) (fst (generateGrid 8 towersCorner 0.001))
     = list_prod [0; 0.001; 0.002] [0; 0.001; 0.002].
Proof.
  split; [vm_compute; lia|].
  destruct (generateGrid_is_product towersCorner 0.001 4 4
              [0; 0.001; 0.002] [0; 0.001; 0.002] 8) as (pts & E & Hpts & _).
  - vm_compute. lia.
  - reflexivity.
  - reflexivity.
  - lia.
  - rewrite E. exact Hpts.
Defined.

(** ** The groups of [findTowerClusterCenter] *)

Section GroupShape.
Variable M : MathHost.
Variable thr : float.

Lemma joinFirst_chained base : forall groups groups',
  Forall (chained M thr) groups ->
  joinFirst M thr base groups = Some groups' ->
  Forall (chained M thr) groups'.
Proof.
  induction groups as [|g rest IH]; intros groups' Hall H; cbn [joinFirst] in H.
  - discriminate.
  - inversion Hall as [|? ? Hg Hrest]; subst.
    destruct (existsb (near M thr base) g) eqn:E.
    + injection H as <-. constructor; [|exact Hrest].
      apply chained_join; assumption.
    + destruct (joinFirst M thr base rest) as [rest'|]; [|discriminate].
      injection H as <-. constructor; [exact Hg | apply IH; auto].
Qed.

Lemma place_chained groups base :
  Forall (chained M thr) groups -> Forall (chained M thr) (place M thr groups base).
Proof.
  intros Hall. unfold place.
  destruct (joinFirst M thr base groups) as [groups'|] eqn:E.
  - eapply joinFirst_chained; eassumption.
  - apply Forall_app. split; [exact Hall|].
    constructor; [apply chained_founder | constructor].
Qed.

Lemma fold_place_chained towers : forall groups,
  Forall (chained M thr) groups ->
  Forall (chained M thr) (fold_left (place M thr) towers groups).
Proof.
  induction towers as [|t ts IH]; intros groups Hall; cbn [fold_left].
  - exact Hall.
  - apply IH, place_chained, Hall.
Qed.

(** The scan finds no group when the tower is near no member of any group. *)
Lemma joinFirst_none base : forall groups,
  Forall (Forall (fun t => near M thr base t = false)) groups ->
  joinFirst M thr base groups = None.
Proof.
  induction groups as [|g rest IH]; intros Hall; cbn [joinFirst].
  - reflexivity.
  - inversion Hall as [|? ? Hg Hrest]; subst.
    assert (E : existsb (near M thr base) g = false).
    { clear - Hg. induction Hg as [|t g Ht _ IHg]; [reflexivity|].
      cbn [existsb]. rewrite Ht, IHg. reflexivity. }
    rewrite E, (IH Hrest). reflexivity.
Qed.

Lemma fold_place_singletons towers : forall pre,
  ForallOrdPairs (fun a b => near M thr b a = false) (pre ++ towers) ->
  fold_left (place M thr) towers (map (fun t => [t]) pre)
  = map (fun t => [t]) (pre ++ towers).
Proof.
  induction towers as [|b rest IH]; intros pre Hsep; cbn [fold_left].
  - rewrite app_nil_r. reflexivity.
  - assert (Hb : Forall (fun a => near M thr b a = false) pre).
    { clear - Hsep. induction pre as [|a pre IHp].
      - constructor.
      - cbn [app] in Hsep. inversion Hsep as [|? ? Ha Hrest]; subst.
        constructor; [|apply IHp; exact Hrest].
        apply (proj1 (Forall_forall _ _) Ha). apply in_or_app. right. left. reflexivity. }
    unfold place at 2. rewrite joinFirst_none.
    + replace (map (fun t => [t]) pre ++ [[b]]) with (map (fun t => [t]) (pre ++ [b]))
        by (rewrite map_app; reflexivity).
      rewrite IH by (rewrite <- app_assoc; exact Hsep).
      rewrite <- app_assoc. reflexivity.
    + apply Forall_forall. intros g Hg. apply in_map_iff in Hg.
      destruct Hg as (a & <- & Ha). constructor; [|constructor].
      exact (proj1 (Forall_forall _ _) Hb a Ha).
Qed.

Lemma fold_place_single_group t1 : forall rest g,
  Forall (fun t => near M thr t t1 = true) rest ->
  In t1 g ->
  fold_left (place M thr) rest [g] = [g ++ rest].
Proof.
  induction rest as [|t rest IH]; intros g Hnear Hin; cbn [fold_left].
  - rewrite app_nil_r. reflexivity.
  - inversion Hnear as [|? ? Ht Hrest]; subst.
    assert (E : existsb (near M thr t) g = true).
    { apply existsb_exists. exists t1. split; assumption. }
    unfold place at 2. cbn [joinFirst]. rewrite E.
    rewrite IH by (try assumption; apply in_or_app; left; exact Hin).
    rewrite <- app_assoc. reflexivity.
Qed.

Lemma fold_pickLarger_singletons towers : forall init,
  (length init <= 1)%nat ->
  (length (fold_left pickLarger (map (fun t => [t]) towers) init) <= 1)%nat.
Proof.
  induction towers as [|t ts IH]; intros init Hinit; cbn [map fold_left].
  - exact Hinit.
  - apply IH. unfold pickLarger. destruct (_ <? _)%nat; [exact Hinit | reflexivity].
Qed.

Lemma largestGroup_singletons towers last :
  largestGroup (map (fun t => [t]) (towers ++ [last])) = [last].
Proof.
  unfold largestGroup. rewrite map_app, fold_left_app. cbn [map fold_left].
  pose proof (fold_pickLarger_singletons towers [] ltac:(cbn; lia)) as H.
  unfold pickLarger at 1.
  destruct (Nat.ltb_spec (length [last]) (length (fold_left pickLarger
              (map (fun t => [t]) towers) []))) as [Hlt | _]; [|reflexivity].
  cbn [length] in Hlt. lia.
Qed.
End GroupShape.

(** X8: every group that the loop of [findTowerClusterCenter] builds is a
    chain: it starts with the tower that founded it, and every later member
    passed the distance test against a member that was already there. *)
Theorem groupTowers_chained (M : MathHost) (thr : float) (towers : list Tower) :
  Forall (chained M thr) (groupTowers M thr towers).
Proof. apply fold_place_chained. constructor. Qed.

(** X9: when every tower after the first passes the distance test against
    the first tower, the loop builds a single group holding all towers in
    input order, and the result is the mean of [lat] and of [lng] over all
    towers. *)
Theorem findTowerClusterCenter_single_group M thr t1 rest :
  Forall (fun t => near M thr t t1 = true) rest ->
  groupTowers M thr (t1 :: rest) = [t1 :: rest]
  /\ findTowerClusterCenter M (t1 :: rest) thr
     = Some (fold_left (fun sum t => sum + lat t) (t1 :: rest) 0 / lengthNum (t1 :: rest),
             fold_left (fun sum t => sum + lng t) (t1 :: rest) 0 / lengthNum (t1 :: rest)).
Proof.
  intros Hnear.
  assert (E : groupTowers M thr (t1 :: rest) = [t1 :: rest]).
  { unfold groupTowers. cbn [fold_left]. unfold place at 2. cbn [joinFirst app].
    apply (fold_place_single_group M thr t1 rest [t1] Hnear). left. reflexivity. }
  split; [exact E|].
  unfold findTowerClusterCenter. cbn [length Nat.eqb]. rewrite E. reflexivity.
Qed.

Lemma findTowerClusterCenter_single_group_witness :
  findTowerClusterCenter RefMath.host [towerSouth; towerEast; towerSouth] defaultThreshold
  = Some (0, 0.0003).
Proof.
  apply (findTowerClusterCenter_single_group RefMath.host defaultThreshold
           towerSouth [towerEast; towerSouth]).
  repeat constructor.
Defined.

(** X10: when no tower passes the distance test against any tower before it
    in the list, every group holds one tower, and the result is the mean
    over the last tower alone: among groups of equal size the fold keeps
    the one created last. *)
Theorem findTowerClusterCenter_separated M thr towers last :
  ForallOrdPairs (fun a b => near M thr b a = false) (towers ++ [last]) ->
  groupTowers M thr (towers ++ [last]) = map (fun t => [t]) (towers ++ [last])
  /\ findTowerClusterCenter M (towers ++ [last]) thr
     = Some ((0 + lat last) / 1, (0 + lng last) / 1).
Proof.
  intros Hsep.
  assert (E : groupTowers M thr (towers ++ [last])
              = map (fun t => [t]) (towers ++ [last])).
  { apply (fold_place_singletons M thr (towers ++ [last]) []). exact Hsep. }
  split; [exact E|].
  unfold findTowerClusterCenter.
  destruct (towers ++ [last]) as [|t ts] eqn:Et; [destruct towers; discriminate|].
  cbn [length Nat.eqb]. rewrite E, <- Et, largestGroup_singletons. reflexivity.
Qed.

Lemma findTowerClusterCenter_separated_witness :
  findTowerClusterCenter RefMath.host
    [towerSouth; towerNorth; mkTower 4 0.18 0] defaultThreshold
  = Some (0.18, 0).
Proof.
  apply (findTowerClusterCenter_separated RefMath.host defaultThreshold
           [towerSouth; towerNorth] (mkTower 4 0.18 0)).
  repeat constructor.
Defined.

(** ** The handlers of [TowerEditor] *)

Lemma onContextMenu_absent towers tid :
  ~ In tid (map id towers) -> onContextMenu towers tid = towers.
Proof.
  unfold onContextMenu. induction towers as [|t ts IH]; intros H; cbn [filter].
  - reflexivity.
  - cbn [map In] in H.
    destruct (Z.eqb_spec (id t) tid) as [E | _]; [tauto|].
    cbn [negb]. f_equal. apply IH. tauto.
Qed.

Lemma onContextMenu_In towers tid t :
  In t (onContextMenu towers tid) <-> In t towers /\ id t <> tid.
Proof.
  unfold onContextMenu. rewrite filter_In.
  destruct (Z.eqb_spec (id t) tid); cbn [negb]; intuition congruence.
Qed.

Lemma onContextMenu_shorter towers tid :
  In tid (map id towers) ->
  (length (onContextMenu towers tid) < length towers)%nat.
Proof.
  unfold onContextMenu. induction towers as [|t ts IH]; intros H; cbn [filter].
  - destruct H.
  - cbn [map In] in H. destruct (Z.eqb_spec (id t) tid) as [E | N]; cbn [negb length].
    + pose proof (filter_length_le (fun t => negb (id t =? tid)%Z) ts). lia.
    + destruct H as [H | H]; [congruence|]. specialize (IH H). lia.
Qed.

(** X11: a click followed by a right click on the new marker gives back the
    towers as they were, provided no earlier tower has the identifier that
    [Date.now()] returned; in general the right click also removes every
    earlier tower with that identifier. *)
Theorem onContextMenu_after_onClick towers now la lo :
  ~ In now (map id towers) ->
  onContextMenu (onClick towers now la lo) now = towers
  /\ forall towers', onContextMenu (onClick towers' now la lo) now
                     = onContextMenu towers' now.
Proof.
  intros Hfresh.
  assert (G : forall towers', onContextMenu (onClick towers' now la lo) now
                              = onContextMenu towers' now).
  { intros towers'. unfold onContextMenu, onClick. rewrite filter_app.
    cbn [filter id]. rewrite Z.eqb_refl. cbn [negb]. apply app_nil_r. }
  split; [|exact G]. rewrite G. apply onContextMenu_absent. exact Hfresh.
Qed.

Lemma onContextMenu_after_onClick_witness :
  onContextMenu (onClick [towerSouth; towerNorth] 7 0.5 0.5) 7 = [towerSouth; towerNorth].
Proof.
  apply (onContextMenu_after_onClick [towerSouth; towerNorth] 7 0.5 0.5).
  cbn. intros [H | [H | []]]; discriminate.
Defined.

(** X12: after a right click on a marker no tower with its identifier is
    left, however many towers shared it; the towers with other identifiers
    are exactly those that remain, and as many towers disappear as carried
    the identifier. *)
Theorem onContextMenu_removes_identifier towers tid :
  ~ In tid (map id (onContextMenu towers tid))
  /\ (forall t, In t (onContextMenu towers tid) <-> In t towers /\ id t <> tid)
  /\ (length (onContextMenu towers tid)
      + length (filter (fun t => (id t =? tid)%Z) towers))%nat = length towers.
Proof.
  split; [|split].
  - intros H. apply in_map_iff in H. destruct H as (t & Et & Ht).
    apply onContextMenu_In in Ht. tauto.
  - intros t. apply onContextMenu_In.
  - unfold onContextMenu. induction towers as [|t ts IH]; [reflexivity|].
    cbn [filter]. destruct (id t =? tid)%Z; cbn [negb length]; lia.
Qed.

(** X13: dragging a marker keeps the number of towers and their identifiers
    in order; a second drag of the same marker overrides the first; and
    dragging a marker whose identifier no tower carries changes nothing. *)
Theorem onDragEnd_keeps_identifiers towers tid la lo :
  map id (onDragEnd towers tid la lo) = map id towers
  /\ length (onDragEnd towers tid la lo) = length towers
  /\ (forall la' lo', onDragEnd (onDragEnd towers tid la lo) tid la' lo'
                      = onDragEnd towers tid la' lo')
  /\ (~ In tid (map id towers) -> onDragEnd towers tid la lo = towers).
Proof.
  unfold onDragEnd. split; [|split; [|split]].
  - rewrite map_map. apply map_ext. intros t. destruct (id t =? tid)%Z; reflexivity.
  - apply length_map.
  - intros la' lo'. rewrite map_map. apply map_ext. intros t.
    destruct (Z.eqb_spec (id t) tid) as [E | N]; cbn [id].
    + rewrite E, Z.eqb_refl. reflexivity.
    + destruct (Z.eqb_spec (id t) tid); [congruence | reflexivity].
  - intros H. induction towers as [|t ts IH]; [reflexivity|].
    cbn [map In] in *. destruct (Z.eqb_spec (id t) tid); [tauto|].
    f_equal. apply IH. tauto.
Qed.

Lemma onDragEnd_hasCoordinates towers tid la lo :
  Forall hasCoordinates towers ->
  is_nan la = false -> is_nan lo = false ->
  Forall hasCoordinates (onDragEnd towers tid la lo).
Proof.
  intros Hall Hla Hlo. unfold onDragEnd. apply Forall_forall. intros t Ht.
  apply in_map_iff in Ht. destruct Ht as (t0 & <- & Ht0).
  destruct (id t0 =? tid)%Z.
  - split; assumption.
  - exact (proj1 (Forall_forall _ _) Hall t0 Ht0).
Qed.

(** X14: after a marker of an existing tower is dragged to a position whose
    coordinates are numbers, that position lies inside the bounding box that
    [generateGrid] computes for the new towers (the other towers having
    coordinates that are numbers as well). *)
Theorem onDragEnd_inside_boundingBox towers tid la lo :
  Forall hasCoordinates towers ->
  In tid (map id towers) ->
  is_nan la = false -> is_nan lo = false ->
  let b := boundingBox (onDragEnd towers tid la lo) in
  fle (latMin b) la /\ fle la (latMax b) /\ fle (lngMin b) lo /\ fle lo (lngMax b).
Proof.
  intros Hall Hin Hla Hlo b. subst b.
  pose proof (onDragEnd_hasCoordinates towers tid la lo Hall Hla Hlo) as Hall'.
  assert (Hmoved : In (mkTower tid la lo) (onDragEnd towers tid la lo)).
  { apply in_map_iff in Hin. destruct Hin as (t & Et & Ht).
    unfold onDragEnd. apply in_map_iff. exists t. split; [|exact Ht].
    rewrite Et, Z.eqb_refl. reflexivity. }
  destruct (boundingBox_lat_bounds _ _ Hall' Hmoved) as [H1 H2].
  destruct (boundingBox_lng_bounds _ _ Hall' Hmoved) as [H3 H4].
  repeat split; assumption.
Qed.

Lemma onDragEnd_inside_boundingBox_witness :
  boundingBox (onDragEnd towersTriangle 2 5 7) = mkBBox 0 5 0 7
  /\ fle 0 5 /\ fle 5 5 /\ fle 0 7 /\ fle 7 7.
Proof.
  split; [reflexivity|].
  apply (onDragEnd_inside_boundingBox towersTriangle 2 5 7).
  - repeat constructor.
  - right. left. reflexivity.
  - reflexivity.
  - reflexivity.
Defined.

(** X15: with at most three towers, a right click on the marker of any of
    them leaves fewer than three, so that [generateGrid] returns the empty
    array and [computeHdop] the sentinel 100 for what remains. *)
Theorem onContextMenu_below_three towers tid :
  (length towers <= 3)%nat ->
  In tid (map id towers) ->
  (forall fuel r, generateGrid fuel (onContextMenu towers tid) r = ([], Finished))
  /\ (forall qlat qlng, computeHdop qlat qlng (onContextMenu towers tid) = Normal 100).
Proof.
  intros Hlen Hin.
  pose proof (onContextMenu_shorter towers tid Hin) as Hshort.
  split.
  - intros fuel r. unfold generateGrid.
    destruct (Nat.ltb_spec (length (onContextMenu towers tid)) 3); [reflexivity | lia].
  - intros qlat qlng. unfold computeHdop.
    destruct (Nat.ltb_spec (length (onContextMenu towers tid)) 3); [reflexivity | lia].
Qed.

Lemma onContextMenu_below_three_witness :
  generateGrid 9 (onContextMenu towersCorner 3) 0.001 = ([], Finished)
  /\ computeHdop 0.001 0.001 (onContextMenu towersCorner 3) = Normal 100.
Proof.
  assert (H3 : (length towersCorner <= 3)%nat) by (vm_compute; lia).
  assert (Hin : In 3%Z (map id towersCorner)) by (right; right; left; reflexivity).
  split; apply (onContextMenu_below_three towersCorner 3 H3 Hin).
Defined.

(** ** The opacity and the intensity of [HDOPOverlay] *)

Lemma iter_pos_invariant {A} (P : A -> Prop) (f : A -> A) :
  (forall x, P x -> P (f x)) -> forall n x, P x -> P (SpecFloat.iter_pos f n x).
Proof.
  intros Hf. induction n as [n IH | n IH |]; intros x Hx; cbn [SpecFloat.iter_pos]; auto.
Qed.

Lemma shr_1_nonnegative mrs : (0 <= shr_m mrs)%Z -> (0 <= shr_m (shr_1 mrs))%Z.
Proof.
  destruct mrs as [m r s]. cbn [shr_m]. intros H.
  destruct m as [|[p|p|]|[p|p|]]; cbn; lia.
Qed.

Lemma shr_fexp_nonnegative m e l :
  (0 <= m)%Z -> (0 <= shr_m (fst (shr_fexp prec emax m e l)))%Z.
Proof.
  intros Hm. unfold shr_fexp, shr.
  assert (H0 : (0 <= shr_m (shr_record_of_loc m l))%Z).
  { destruct l as [|[| |]]; exact Hm. }
  destruct (Z.sub _ e) as [|p|p]; cbn [fst]; try exact H0.
  apply iter_pos_invariant; [apply shr_1_nonnegative | exact H0].
Qed.

Lemma binary_round_aux_not_nan sx mx ex lx :
  (0 <= mx)%Z -> binary_round_aux prec emax sx mx ex lx <> S754_nan.
Proof.
  intros Hm. unfold binary_round_aux.
  pose proof (shr_fexp_nonnegative mx ex lx Hm) as H1.
  destruct (shr_fexp prec emax mx ex lx) as [mrs' e']. cbn [fst] in H1.
  assert (H2 : (0 <= round_nearest_even (shr_m mrs') (loc_of_shr_record mrs'))%Z).
  { unfold round_nearest_even.
    destruct (loc_of_shr_record mrs') as [|[| |]]; try exact H1;
      [destruct (Z.even _)|]; lia. }
  pose proof (shr_fexp_nonnegative _ e' loc_Exact H2) as H3.
  destruct (shr_fexp prec emax _ e' loc_Exact) as [mrs'' e'']. cbn [fst] in H3.
  destruct (shr_m mrs'') as [|m|m]; [discriminate | | lia].
  destruct (Z.leb e'' (Z.sub emax prec)); discriminate.
Qed.

Lemma sf_div_not_nan sx mx ex q :
  q <> S754_nan -> SF64div (S754_finite sx mx ex) q <> S754_nan.
Proof.
  intros Hq. destruct q as [s|s| |s m e]; cbn [SF64div SFdiv]; try discriminate;
    [congruence|].
  unfold SFdiv_core_binary.
  set (e' := Z.min _ _). set (m' := match Z.sub (Z.sub ex e) e' with
                                    | Zpos _ => _ | Z0 => _ | Zneg _ => _ end).
  assert (Hm' : (0 <= m')%Z).
  { subst m'. destruct (Z.sub (Z.sub ex e) e'); try lia.
    apply Z.shiftl_nonneg. lia. }
  pose proof (Z.div_pos m' (Zpos m) Hm' ltac:(lia)) as Hdiv.
  unfold Z.div in Hdiv. destruct (Z.div_eucl m' (Zpos m)) as [qz rz].
  apply binary_round_aux_not_nan. exact Hdiv.
Qed.

Lemma inverse_nan_iff x : is_nan (1 / x) = is_nan x.
Proof.
  destruct (is_nan x) eqn:Ex.
  - apply is_nan_true_iff in Ex. subst x. reflexivity.
  - apply is_nan_false_iff. rewrite div_spec.
    apply is_nan_false_iff in Ex.
    change (Prim2SF 1) with (S754_finite false 4503599627370496 (-52)).
    apply sf_div_not_nan. exact Ex.
Qed.

(** X16: the opacity [Math.min(1, 1 / p.hdop)] of a cell and the intensity
    [1 / p.hdop] of a heat point are [NaN] exactly when the [hdop] of the
    point is [NaN]; otherwise the opacity is at most 1.  A point that
    carries the sentinel 100 gets opacity and intensity 0.01. *)
Theorem pixelAlpha_at_most_one (p : GridPoint) :
  is_nan (pixelAlpha p) = is_nan (hdop p)
  /\ Forall (fun h => is_nan (snd h) = is_nan (hdop p)) (heatData [p])
  /\ (is_nan (hdop p) = false -> fle (pixelAlpha p) 1)
  /\ (hdop p = 100 -> pixelAlpha p = 0.01 /\ heatData [p] = [(g_lat p, g_lng p, 0.01)]).
Proof.
  pose proof (inverse_nan_iff (hdop p)) as Hinv.
  split; [|split; [|split]].
  - unfold pixelAlpha. destruct (is_nan (hdop p)) eqn:E.
    + unfold Math_min. rewrite Hinv, orb_true_r. reflexivity.
    + apply (Math_min_spec 1 (1 / hdop p) eq_refl Hinv).
  - repeat constructor. exact Hinv.
  - intros E. rewrite E in Hinv. unfold pixelAlpha.
    apply (Math_min_spec 1 (1 / hdop p) eq_refl Hinv).
  - intros E. unfold pixelAlpha, heatData. cbn [map]. rewrite E. split; reflexivity.
Qed.

(** ** [handleFileUpload] *)

Lemma generateGrid_never_thrown fuel towers r :
  snd (generateGrid fuel towers r) <> Thrown.
Proof.
  unfold generateGrid. destruct (length towers <? 3)%nat; [discriminate|]. cbv zeta.
  destruct (latLoop_spec towers r (boundingBox towers) fuel
              (latMin (boundingBox towers)) []) as (_ & _ & _ & H & _).
  exact H.
Qed.

(** X17: a file that holds an array of towers, or an object with towers and
    a precision other than 0, is never answered by an alert: either
    [generateGrid] does not return, or every setter is called, and then
    the grid in the state is the grid of the towers and the precision in
    the state, the tab is unchanged, and the map centre is the centre that
    [findTowerClusterCenter] returns, or the old one when there is no
    tower.  An array leaves the precision as it was. *)
Theorem handleFileUpload_accepts M fuel st parsed ts prec :
  (parsed = ParsedArray ts /\ prec = st_precision st)
  \/ (parsed = ParsedObject (Some ts) (Some prec) /\ truthyNumber prec = true) ->
  handleFileUpload M fuel st parsed = Hangs
  \/ exists st',
       handleFileUpload M fuel st parsed = Accepted st'
       /\ st_towers st' = ts
       /\ st_precision st' = prec
       /\ st_tab st' = st_tab st
       /\ generateGrid fuel (st_towers st') (st_precision st')
          = (st_gridData st', Finished)
       /\ (ts = [] -> st_mapCenter st' = st_mapCenter st)
       /\ (ts <> [] ->
           findTowerClusterCenter M ts defaultThreshold = Some (st_mapCenter st')).
Proof.
  intros H.
  assert (E : handleFileUpload M fuel st parsed = loadTowers M fuel st ts prec).
  { destruct H as [[-> ->] | [-> Ht]]; cbn [handleFileUpload]; [|rewrite Ht]; reflexivity. }
  rewrite E. clear E H. unfold loadTowers.
  pose proof (generateGrid_never_thrown fuel ts prec) as HT.
  destruct (generateGrid fuel ts prec) as [grid status] eqn:EG. cbn [snd] in HT.
  destruct status; [|congruence | left; reflexivity].
  right. eexists. split; [reflexivity|]. cbn [st_towers st_precision st_tab st_gridData st_mapCenter].
  repeat split; try exact EG.
  - intros ->. reflexivity.
  - intros Hne. unfold findTowerClusterCenter.
    destruct ts as [|t ts']; [congruence|]. reflexivity.
Qed.

Lemma handleFileUpload_accepts_witness :
  let st := mkAppState Planner [] 0.001 (37.7749, -122.4194) [] in
  exists st',
    handleFileUpload RefMath.host 6 st (ParsedObject (Some towersCorner) (Some 0.001))
    = Accepted st'
    /\ coordsOf (st_gridData st') = grid3x3.
Proof.
  cbv zeta.
  destruct (handleFileUpload_accepts RefMath.host 6
              (mkAppState Planner [] 0.001 (37.7749, -122.4194) [])
              (ParsedObject (Some towersCorner) (Some 0.001)) towersCorner 0.001)
    as [H | (st' & H & _ & _ & _ & HG & _)].
  - right. split; reflexivity.
  - vm_compute in H. discriminate.
  - exists st'. split; [exact H|].
    vm_compute in H. injection H as <-. reflexivity.
Defined.

(** ** Coordinates that are [NaN] *)

Lemma sub_nan_l x : nan - x = nan.
Proof. apply Prim2SF_inj. rewrite sub_spec. reflexivity. Qed.

Lemma sub_nan_r x : x - nan = nan.
Proof.
  apply Prim2SF_inj. rewrite sub_spec.
  change (Prim2SF nan) with S754_nan. destruct (Prim2SF x); reflexivity.
Qed.

Lemma div_nan_r x : x / nan = nan.
Proof.
  apply Prim2SF_inj. rewrite div_spec.
  change (Prim2SF nan) with S754_nan. destruct (Prim2SF x); reflexivity.
Qed.

Lemma losRow_nan qlat qlng t :
  lat t = nan \/ lng t = nan \/ qlat = nan \/ qlng = nan ->
  losRow qlat qlng t = [nan; nan].
Proof.
  unfold losRow, losNorm.
  intros [E | [E | [E | E]]]; rewrite E;
    rewrite ?sub_nan_l, ?sub_nan_r, ?mul_nan_l, ?add_nan_l, ?add_nan_r;
    change (sqrt nan) with nan; rewrite !div_nan_r; reflexivity.
Qed.

(** X18: with at least three towers, a single tower one of whose coordinates
    is [NaN], or a query point one of whose coordinates is [NaN], makes
    [computeHdop] return [NaN]. *)
Theorem computeHdop_nan_coordinate qlat qlng towers t :
  (3 <= length towers)%nat ->
  In t towers ->
  lat t = nan \/ lng t = nan \/ qlat = nan \/ qlng = nan ->
  computeHdop qlat qlng towers = Normal nan.
Proof.
  intros Hlen HIn Hnan.
  rewrite (computeHdop_normal _ _ _ Hlen). cbv zeta.
  assert (HInA : In [nan; nan] (map (losRow qlat qlng) towers)).
  { rewrite <- (losRow_nan qlat qlng t Hnan). apply in_map. exact HIn. }
  rewrite (dotCol_nan_row 0 0 _ _ HInA eq_refl).
  rewrite (dotCol_nan_row 0 1 _ _ HInA eq_refl).
  rewrite (dotCol_nan_row 1 0 _ _ HInA eq_refl).
  rewrite (dotCol_nan_row 1 1 _ _ HInA eq_refl).
  reflexivity.
Qed.

Lemma computeHdop_nan_coordinate_witness :
  computeHdop 0.5 0.2 [mkTower 1 0 0; mkTower 2 nan 1; mkTower 3 1 0] = Normal nan.
Proof.
  apply (computeHdop_nan_coordinate 0.5 0.2 _ (mkTower 2 nan 1)).
  - vm_compute. lia.
  - right. left. reflexivity.
  - left. reflexivity.
Defined.

Lemma Math_max_nan_r a : Math_max a nan = nan.
Proof. unfold Math_max. rewrite orb_true_r. reflexivity. Qed.

Lemma foldMax_nan (f : Tower -> float) towers : forall init,
  init = nan \/ Exists (fun t => f t = nan) towers ->
  fold_left (fun acc t => Math_max acc (f t)) towers init = nan.
Proof.
  induction towers as [|t ts IH]; intros init H; cbn [fold_left].
  - destruct H as [H | H]; [exact H | inversion H].
  - apply IH. destruct H as [-> | H].
    + left. reflexivity.
    + inversion H as [? ? Ht | ? ? Hts]; subst.
      * left. rewrite Ht. apply Math_max_nan_r.
      * right. exact Hts.
Qed.

Lemma leb_nan_r x : (x <=? nan) = false.
Proof.
  rewrite leb_spec. change (Prim2SF nan) with S754_nan.
  destruct (Prim2SF x); reflexivity.
Qed.

Lemma latLoop_no_column towers r b :
  lngMax b = nan ->
  forall fuel lat', fst (latLoop fuel towers r b lat' []) = [].
Proof.
  intros Hmax. induction fuel as [|fuel IH]; intros lat'; cbn [latLoop].
  - reflexivity.
  - destruct (lat' <=? latMax b); [|reflexivity].
    cbn [lngLoop]. rewrite Hmax, leb_nan_r. apply IH.
Qed.

(** X19: when a tower has a coordinate that is [NaN], the bounding box has
    [NaN] for the maximum of that axis, no loop guard on that axis ever
    holds, and [generateGrid] never pushes a point; when the coordinate is
    a latitude it returns the empty array at once. *)
Theorem generateGrid_nan_coordinate towers r fuel t :
  In t towers ->
  lat t = nan \/ lng t = nan ->
  fst (generateGrid fuel towers r) = []
  /\ (lat t = nan -> generateGrid (S fuel) towers r = ([], Finished)).
Proof.
  intros HIn Hnan. unfold generateGrid.
  destruct (length towers <? 3)%nat; [split; reflexivity|]. cbv zeta.
  destruct (boundingBox_fields towers bboxInit) as (_ & E2 & _ & E4).
  fold (boundingBox towers) in E2, E4.
  assert (Hlat : lat t = nan -> latMax (boundingBox towers) = nan).
  { intros E. rewrite E2. apply foldMax_nan. right.
    apply Exists_exists. exists t. split; assumption. }
  assert (Hlng : lng t = nan -> lngMax (boundingBox towers) = nan).
  { intros E. rewrite E4. apply foldMax_nan. right.
    apply Exists_exists. exists t. split; assumption. }
  split.
  - destruct Hnan as [E | E].
    + destruct fuel as [|fuel']; cbn [latLoop]; [reflexivity|].
      rewrite (Hlat E), leb_nan_r. reflexivity.
    + apply latLoop_no_column. exact (Hlng E).
  - intros E. cbn [latLoop]. rewrite (Hlat E), leb_nan_r. reflexivity.
Qed.

Lemma generateGrid_nan_coordinate_witness :
  generateGrid 1 [mkTower 1 0 0; mkTower 2 nan 1; mkTower 3 1 0] 0.001 = ([], Finished).
Proof.
  apply (generateGrid_nan_coordinate _ 0.001 0 (mkTower 2 nan 1)).
  - right. left. reflexivity.
  - left. reflexivity.
  - reflexivity.
Defined.
